(** * otel_exporter_test: a shallow embedding of [main.go]

    The program is a small HTTP server with three routes.  [/fibonacci]
    parses the query parameter [n] and answers with the naive recursive
    Fibonacci number, opening one tracing span per call; [/nested] opens a
    parent span and a child span and writes nothing; a background goroutine
    increments a Prometheus counter every time a one-second timer fires.

    Machine integers are [Z] with the wrap-around written out, strings are
    [string], the tracer provider and the wall clock are an explicit
    [World] that every operation threads through, and the recursion of
    [fibonacci], which is not structural, carries a fuel argument together
    with a proof that the fuel [n] is always enough. *)

From Stdlib Require Import ZArith Lia Ascii String List.
From stdpp Require Import base option gmap strings list.

Local Open Scope string_scope.
Local Open Scope Z_scope.

(** ** Machine integers *)

Module U64.

Definition modulus : Z := 2 ^ 64.
Definition maxUint64 : Z := modulus - 1.

(** Reduction of a mathematical integer to its [uint64] representative. *)
Definition wrap (z : Z) : Z := z mod modulus.

Definition add (a b : Z) : Z := wrap (a + b).
Definition sub (a b : Z) : Z := wrap (a - b).
Definition mul (a b : Z) : Z := wrap (a * b).

(** [int64(u)] for a [uint64] [u], and [-x] on [int64]. *)
Definition to_int64 (z : Z) : Z := (z + 2 ^ 63) mod modulus - 2 ^ 63.
Definition neg_int64 (x : Z) : Z := to_int64 (- x).

(** [uint64(x)] for an [int64] [x]: two's complement reinterpretation. *)
Definition of_int64 (x : Z) : Z := wrap x.

Definition in_range (z : Z) : Prop := 0 <= z < modulus.

End U64.

(** ** The parts of [strconv] and [fmt] the program calls *)

Module strconv.

Inductive Err : Type :=
| ErrSyntax
| ErrRange.

Definition byte_of (c : ascii) : Z := Z.of_N (N_of_ascii c).

(** [lower(c) = c | ('x' - 'X')] *)
Definition lower (c : Z) : Z := Z.lor c 32.

(** The digit switch of [ParseUint]: [None] is its [default] branch. *)
Definition digit_of (c : Z) : option Z :=
  if (48 <=? c) && (c <=? 57) then Some (c - 48)
  else if (97 <=? lower c) && (lower c <=? 122) then Some (lower c - 97 + 10)
  else None.

(** The call site fixes [base = 10] and [bitSize = 64]; the prefix and
    underscore handling of [base = 0] is therefore never entered. *)
Definition base : Z := 10.

(** The smallest number such that [cutoff * base > maxUint64]. *)
Definition cutoff : Z := U64.maxUint64 / 10 + 1.

Definition maxVal : Z := U64.maxUint64.

(** The [for _, c := range []byte(s)] loop, [n] being the accumulator. *)
Fixpoint parseUint_loop (s : string) (n : Z) : Z * option Err :=
  match s with
  | EmptyString => (n, None)
  | String c rest =>
      match digit_of (byte_of c) with
      | None => (0, Some ErrSyntax)
      | Some d =>
          if base <=? d then (0, Some ErrSyntax)
          else if cutoff <=? n then (maxVal, Some ErrRange)
          else
            let n' := U64.mul n base in
            let n1 := U64.add n' d in
            if (n1 <? n') || (maxVal <? n1) then (maxVal, Some ErrRange)
            else parseUint_loop rest n1
      end
  end.

(** [ParseUint(s, 10, 64)] *)
Definition ParseUint (s : string) : Z * option Err :=
  match s with
  | EmptyString => (0, Some ErrSyntax)
  | _ => parseUint_loop s 0
  end.

(** [ParseInt(s, 10, 64)]: value and error, as Go returns both. *)
Definition ParseInt (s : string) : Z * option Err :=
  match s with
  | EmptyString => (0, Some ErrSyntax)
  | String c0 rest =>
      let neg := Ascii.eqb c0 "-" in
      let s1 := if Ascii.eqb c0 "+" then rest
                else if Ascii.eqb c0 "-" then rest else s in
      let '(un, err) := ParseUint s1 in
      match err with
      | Some ErrSyntax => (0, Some ErrSyntax)
      | _ =>
          let cutoff := 2 ^ 63 in
          if negb neg && (cutoff <=? un) then (cutoff - 1, Some ErrRange)
          else if neg && (cutoff <? un) then (- cutoff, Some ErrRange)
          else
            let n := U64.to_int64 un in
            (if neg then U64.neg_int64 n else n, None)
      end
  end.

Definition digit_char (d : Z) : ascii := ascii_of_N (Z.to_N (48 + d)).

(** Decimal digits, least significant first, pushed in front of [acc]. *)
Fixpoint formatBits (digits : nat) (u : Z) (acc : string) : string :=
  match digits with
  | O => acc
  | S k =>
      let acc' := String (digit_char (u mod 10)) acc in
      if u <? 10 then acc' else formatBits k (u / 10) acc'
  end.

(** [FormatUint(i, 10)]; a [uint64] has at most twenty decimal digits. *)
Definition FormatUint (i : Z) : string := formatBits 20 i "".

End strconv.

(** [fmt.Sprintf("fibonacci-%d", n)] for a [uint64] [n]. *)
Definition Sprintf_fibonacci (n : Z) : string :=
  "fibonacci-" ++ strconv.FormatUint n.

(** ** Tracing: the part of the OpenTelemetry SDK the handlers drive *)

(** A span as the SDK records it.  [parentID] is the span that was current
    in the [context.Context] given to [Start]. *)
Record Span : Type := mkSpan {
  spanID : N;
  parentID : option N;
  tracerName : string;
  spanName : string;
  attributes : list (string * Z);
  events : list string
}.

(** A [context.Context], as far as tracing reads it: the current span. *)
Record context : Type := mkContext {
  currentSpan : option N
}.

(** What the program shares with its environment: the wall clock, read by
    [time.Now()] (the [k]-th reading is [wall k]), the span-identifier
    supply of the tracer provider, and the spans handed to the span
    processor by [span.End()], oldest first. *)
Record World : Type := mkWorld {
  wall : nat -> Z;
  reads : nat;
  nextSpanID : N;
  ended : list Span
}.

(** [time.Now().UnixNano()] *)
Definition time_Now_UnixNano (w : World) : Z * World :=
  (wall w (reads w),
   {| wall := wall w; reads := S (reads w);
      nextSpanID := nextSpanID w; ended := ended w |}).

(** [otel.Tracer(tracer).Start(ctx, name)]: a fresh span whose parent is the
    current span of [ctx], and a context in which the new span is current. *)
Definition Tracer_Start (tracer : string) (ctx : context) (name : string)
    (w : World) : context * Span * World :=
  let sp := {| spanID := nextSpanID w; parentID := currentSpan ctx;
               tracerName := tracer; spanName := name;
               attributes := []; events := [] |} in
  ({| currentSpan := Some (nextSpanID w) |}, sp,
   {| wall := wall w; reads := reads w;
      nextSpanID := N.succ (nextSpanID w); ended := ended w |}).

Definition SetAttributes (kv : string * Z) (sp : Span) : Span :=
  {| spanID := spanID sp; parentID := parentID sp;
     tracerName := tracerName sp; spanName := spanName sp;
     attributes := attributes sp ++ [kv]; events := events sp |}.

Definition AddEvent (name : string) (sp : Span) : Span :=
  {| spanID := spanID sp; parentID := parentID sp;
     tracerName := tracerName sp; spanName := spanName sp;
     attributes := attributes sp; events := events sp ++ [name] |}.

(** [span.End()] *)
Definition Span_End (sp : Span) (w : World) : World :=
  {| wall := wall w; reads := reads w;
     nextSpanID := nextSpanID w; ended := ended w ++ [sp] |}.

(** ** [fibonacci] *)

(** [fibonacci(ctx, n)].  [None] means that [fuel] nested calls were not
    enough; [fibonacci_run] below shows that fuel [n] always is. *)
Fixpoint fibonacci (fuel : nat) (ctx : context) (n : Z) (w : World)
    : option (Z * World) :=
  let spanName := Sprintf_fibonacci n in
  let '(ctx, span, w) := Tracer_Start "fibonacci" ctx spanName w in
  let '(now, w) := time_Now_UnixNano w in
  let span := SetAttributes ("timestamp", now) span in
  if n <=? 1 then
    let w := Span_End span w in
    Some (n, w)
  else
    let w := Span_End span w in
    match fuel with
    | O => None
    | S fuel' =>
        match fibonacci fuel' ctx (U64.sub n 1) w with
        | None => None
        | Some (a, w) =>
            match fibonacci fuel' ctx (U64.sub n 2) w with
            | None => None
            | Some (b, w) => Some (U64.add a b, w)
            end
        end
    end.

(** What every call does to the tracer before it returns or recurses: the
    span is started, stamped and, on either branch of the test [n <= 1],
    ended.  The result is the context the recursive calls receive and the
    world after [span.End()]. *)
Definition fibonacci_span (ctx : context) (n : Z) (w : World) : context * World :=
  let spanName := Sprintf_fibonacci n in
  let '(ctx1, span, w1) := Tracer_Start "fibonacci" ctx spanName w in
  let '(now, w2) := time_Now_UnixNano w1 in
  let span := SetAttributes ("timestamp", now) span in
  (ctx1, Span_End span w2).

(** ** HTTP plumbing *)

Definition StatusOK : Z := 200.
Definition StatusBadRequest : Z := 400.

(** [url.Values] is [map[string][]string]; [Get] is the first value of the
    key, or the empty string. *)
Definition Values_Get (q : gmap string (list string)) (key : string) : string :=
  match q !! key with
  | Some (v :: _) => v
  | _ => ""
  end.

Record Request : Type := mkRequest {
  method : string;
  reqContext : context;
  query : gmap string (list string)
}.

(** An [http.ResponseWriter]: the status line once it is written, and the
    bytes of the body so far. *)
Record ResponseWriter : Type := mkResponseWriter {
  wroteHeader : option Z;
  written : string
}.

Definition newResponse : ResponseWriter :=
  {| wroteHeader := None; written := "" |}.

(** A second [WriteHeader] is ignored by [net/http]. *)
Definition WriteHeader (code : Z) (resp : ResponseWriter) : ResponseWriter :=
  match wroteHeader resp with
  | Some _ => resp
  | None => {| wroteHeader := Some code; written := written resp |}
  end.

(** [Write] sends [200 OK] first when no header was written. *)
Definition Write (data : string) (resp : ResponseWriter) : ResponseWriter :=
  let resp := WriteHeader StatusOK resp in
  {| wroteHeader := wroteHeader resp; written := written resp ++ data |}.

(** What the client receives once the handler has returned: a handler that
    never wrote a header is answered with [200 OK]. *)
Definition response_of (resp : ResponseWriter) : Z * string :=
  (default StatusOK (wroteHeader resp), written resp).

(** [fibonacciHandler.ServeHTTP] *)
Definition fibonacciHandler_ServeHTTP (fuel : nat) (resp : ResponseWriter)
    (req : Request) (w : World) : option (ResponseWriter * World) :=
  let n := Values_Get (query req) "n" in
  let '(nCount, err) := strconv.ParseInt n in
  match err with
  | Some _ =>
      let resp := WriteHeader StatusBadRequest resp in
      let resp := Write "n is not a number" resp in
      Some (resp, w)
  | None =>
      match fibonacci fuel (reqContext req) (U64.of_int64 nCount) w with
      | None => None
      | Some (ret, w1) =>
          let resp := WriteHeader StatusOK resp in
          let resp := Write (strconv.FormatUint ret) resp in
          Some (resp, w1)
      end
  end.

(** [nestedSpanHandler.ServeHTTP].  The deferred [span.End()] of the
    closure runs when the closure returns, the one of the handler when the
    handler returns. *)
Definition nestedSpanHandler_ServeHTTP (resp : ResponseWriter) (req : Request)
    (w : World) : ResponseWriter * World :=
  let '(ctx, span, w) := Tracer_Start "nested" (reqContext req) "parent" w in
  let span := AddEvent "parent event" span in
  let '(now, w) := time_Now_UnixNano w in
  let span := SetAttributes ("parentId", now) span in
  let w :=
    (fun (ctx : context) (w : World) =>
       let '(ctx, span, w) := Tracer_Start "nested" ctx "child" w in
       let '(now, w) := time_Now_UnixNano w in
       let span := SetAttributes ("childId", now) span in
       Span_End span w) ctx w in
  (resp, Span_End span w).

(** A request as a client sends it: [GET path?n=v]. *)
Definition GET_n (v : string) : Request :=
  {| method := "GET"; reqContext := {| currentSpan := None |};
     query := {[ "n" := [v] ]} |}.

(** ** The counter and the background goroutine of [main] *)

(** A [prometheus.CounterVec]: the label names it was created with and one
    counter per tuple of label values that was ever asked for. *)
Record CounterVec : Type := mkCounterVec {
  metricName : string;
  variableLabels : list string;
  children : gmap (list string) N
}.

(** [prometheus.NewCounterVec(CounterOpts{Name: "countPerSec"},
    []string{"id", "database"})] *)
Definition countCollector : CounterVec :=
  {| metricName := "countPerSec";
     variableLabels := ["id"; "database"];
     children := ∅ |}.

Definition counter_value (lvs : list string) (vec : CounterVec) : N :=
  default 0%N (children vec !! lvs).

(** [vec.WithLabelValues(lvs...).Inc()].  [WithLabelValues] panics ([None])
    when the number of values is not the number of label names; otherwise
    the child is created at zero if it is new, and incremented. *)
Definition WithLabelValues_Inc (lvs : list string) (vec : CounterVec)
    : option CounterVec :=
  if decide (length lvs = length (variableLabels vec)) then
    Some {| metricName := metricName vec;
            variableLabels := variableLabels vec;
            children := <[ lvs := N.succ (counter_value lvs vec) ]> (children vec) |}
  else None.

(** [time.Second], in nanoseconds. *)
Definition Second : Z := 1000000000.

Module Ticker.

(** The [*time.Timer] of the goroutine: waiting for its deadline, fired
    with the value still in the channel [timer.C], or fired and read. *)
Inductive Timer : Type :=
| Armed (d : Z)
| Fired
| Drained.

(** The statement the goroutine is at.  The loop is [for { ... }] without
    [break] or [return]: there is no program point after it, and the
    deferred [timer.Stop()] is never reached. *)
Inductive PC : Type :=
| AtNewTimer
| AtReceive
| AtInc
| AtReset.

(** [elapsed] is the time, in nanoseconds, since the timer was created,
    and [rounds] the number of times the loop body has run to its end. *)
Record State : Type := mkState {
  pc : PC;
  timer : Timer;
  elapsed : Z;
  rounds : nat;
  counters : CounterVec
}.

Inductive Outcome : Type :=
| Next (s : State)
| Blocked
| Panicked.

Definition init : State :=
  {| pc := AtNewTimer; timer := Drained; elapsed := 0; rounds := 0;
     counters := countCollector |}.

(** One step of the goroutine together with its timer.  An armed timer
    fires when its duration has passed.  The goroutine then receives from
    [timer.C], increments, and only after that calls [timer.Reset], which
    arms the timer for one second counted from the call: [latency k] is
    the time, in nanoseconds, that passes in round [k] between the firing
    and that call (the wake-up of the goroutine, the increment, the call
    itself).  It is an input of the environment, like the wall clock. *)
Definition step (latency : nat -> N) (s : State) : Outcome :=
  match pc s with
  | AtNewTimer =>
      Next {| pc := AtReceive; timer := Armed Second;
              elapsed := elapsed s; rounds := rounds s;
              counters := counters s |}
  | AtReceive =>
      match timer s with
      | Armed d =>
          Next {| pc := AtReceive; timer := Fired;
                  elapsed := elapsed s + d; rounds := rounds s;
                  counters := counters s |}
      | Fired =>
          Next {| pc := AtInc; timer := Drained;
                  elapsed := elapsed s; rounds := rounds s;
                  counters := counters s |}
      | Drained => Blocked
      end
  | AtInc =>
      match WithLabelValues_Inc ["1"; "db1"] (counters s) with
      | Some vec =>
          Next {| pc := AtReset; timer := timer s;
                  elapsed := elapsed s; rounds := rounds s;
                  counters := vec |}
      | None => Panicked
      end
  | AtReset =>
      Next {| pc := AtReceive; timer := Armed Second;
              elapsed := elapsed s + Z.of_N (latency (rounds s));
              rounds := S (rounds s);
              counters := counters s |}
  end.

Fixpoint run (latency : nat -> N) (steps : nat) (s : State) : Outcome :=
  match steps with
  | O => Next s
  | S k =>
      match step latency s with
      | Next s' => run latency k s'
      | o => o
      end
  end.

(** The goroutine after [k] complete rounds of the loop: the timer
    statement, then four steps (fire, receive, increment, reset) each. *)
Definition after_ticks (latency : nat -> N) (k : nat) : Outcome :=
  run latency (1 + 4 * k) init.

End Ticker.

(** ** Reference definitions *)

(** The mathematical Fibonacci sequence, as the textbook defines it. *)
Fixpoint Fib (n : nat) : Z :=
  match n with
  | O => 0
  | S m =>
      match m with
      | O => 1
      | S k => Fib m + Fib k
      end
  end.

(** [Fib n] and [Fib (n + 1)] together, in linearly many additions. *)
Fixpoint Fib_pair (n : nat) : Z * Z :=
  match n with
  | O => (0, 1)
  | S m => let '(a, b) := Fib_pair m in (b, a + b)
  end.

(** The number of calls of a recursion that recomputes both branches:
    one for the call itself and, above the base case, those of its two
    recursive calls. *)
Fixpoint calls (n : nat) : nat :=
  match n with
  | O => 1%nat
  | S m =>
      match m with
      | O => 1%nat
      | S k => (1 + calls m + calls k)%nat
      end
  end.

(** The time the first [k] rounds spent between a firing of the timer and
    the call that re-armed it. *)
Fixpoint total_latency (latency : nat -> N) (k : nat) : Z :=
  match k with
  | O => 0
  | S j => total_latency latency j + Z.of_N (latency j)
  end.

(** The goroutine at the top of the loop, waiting on the re-armed timer,
    after [k] rounds: [k] in the one counter of the vector (which does not
    exist before the first increment), and as time [k] seconds of waiting
    plus what the rounds themselves took. *)
Definition tick_children (k : nat) : gmap (list string) N :=
  match k with
  | O => ∅
  | S _ => {[ ["1"; "db1"] := N.of_nat k ]}
  end.

Definition tick_state (latency : nat -> N) (k : nat) : Ticker.State :=
  {| Ticker.pc := Ticker.AtReceive;
     Ticker.timer := Ticker.Armed Second;
     Ticker.elapsed := Z.of_nat k * Second + total_latency latency k;
     Ticker.rounds := k;
     Ticker.counters :=
       {| metricName := "countPerSec";
          variableLabels := ["id"; "database"];
          children := tick_children k |} |}.

(** The world before the first request, for a given wall clock. *)
Definition World0 (clock : nat -> Z) : World :=
  {| wall := clock; reads := 0; nextSpanID := 0%N; ended := [] |}.

Definition background : context := {| currentSpan := None |}.

(** ** Reference definitions for the accepted inputs and the trace *)

(** The decimal numerals: an optional sign, then one or more of the digits
    [0] to [9], read in base ten. *)
Definition is_digit (c : ascii) : bool :=
  (48 <=? strconv.byte_of c) && (strconv.byte_of c <=? 57).

Fixpoint all_digits (s : string) : bool :=
  match s with
  | EmptyString => true
  | String c rest => is_digit c && all_digits rest
  end.

Fixpoint decimal_value (s : string) (acc : Z) : Z :=
  match s with
  | EmptyString => acc
  | String c rest => decimal_value rest (acc * 10 + (strconv.byte_of c - 48))
  end.

Definition split_sign (s : string) : bool * string :=
  match s with
  | EmptyString => (false, s)
  | String c rest =>
      if Ascii.eqb c "+" then (false, rest)
      else if Ascii.eqb c "-" then (true, rest)
      else (false, s)
  end.

(** The integer a string denotes when it is a decimal numeral whose value
    fits [int64], and [None] for every other string. *)
Definition int64_numeral (s : string) : option Z :=
  let '(neg, body) := split_sign s in
  match body with
  | EmptyString => None
  | _ =>
      if all_digits body then
        let v := if neg then - decimal_value body 0 else decimal_value body 0 in
        if (- 2 ^ 63 <=? v) && (v <? 2 ^ 63) then Some v else None
      else None
  end.

(** Closes goals that a literal, or a number bounded by hypotheses, is a
    [uint64]. *)
Ltac u64_range := unfold U64.in_range, U64.modulus in *; lia.

(** ** Sanity checks of the embedding on concrete inputs *)

Example ParseInt_10 : strconv.ParseInt "10" = (10, None).
Proof. reflexivity. Qed.

Example ParseInt_abc : strconv.ParseInt "abc" = (0, Some strconv.ErrSyntax).
Proof. reflexivity. Qed.

Example ParseInt_empty : strconv.ParseInt "" = (0, Some strconv.ErrSyntax).
Proof. reflexivity. Qed.

Example ParseInt_minus_one : strconv.ParseInt "-1" = (-1, None).
Proof. reflexivity. Qed.

Example ParseInt_plus : strconv.ParseInt "+007" = (7, None).
Proof. reflexivity. Qed.

Example ParseInt_min : strconv.ParseInt "-9223372036854775808" = (- 2 ^ 63, None).
Proof. reflexivity. Qed.

Example ParseInt_too_large :
  strconv.ParseInt "9223372036854775808" = (2 ^ 63 - 1, Some strconv.ErrRange).
Proof. reflexivity. Qed.

Example FormatUint_max :
  strconv.FormatUint U64.maxUint64 = "18446744073709551615".
Proof. reflexivity. Qed.

Example FormatUint_zero : strconv.FormatUint 0 = "0".
Proof. reflexivity. Qed.

Example fibonacci_6_value :
  option_map fst (fibonacci 5 background 6 (World0 (fun _ => 0))) = Some 8.
Proof. reflexivity. Qed.

Example fibonacci_3_spans :
  option_map (fun r => map spanName (ended (snd r)))
             (fibonacci 1 background 3 (World0 (fun _ => 0)))
  = None
  /\ option_map (fun r => map spanName (ended (snd r)))
                (fibonacci 2 background 3 (World0 (fun _ => 0)))
     = Some ["fibonacci-3"; "fibonacci-2"; "fibonacci-1"; "fibonacci-0";
             "fibonacci-1"].
Proof. split; reflexivity. Qed.

(** ** Arithmetic of the reference definitions *)

Lemma Fib_step (k : nat) : Fib (S (S k)) = Fib (S k) + Fib k.
Proof. reflexivity. Qed.

Lemma Fib_pair_spec (n : nat) : Fib_pair n = (Fib n, Fib (S n)).
Proof.
  induction n as [|n IH]; [reflexivity|].
  cbn [Fib_pair]. rewrite IH, Fib_step. f_equal. lia.
Qed.

Lemma Fib_nonneg (n : nat) : 0 <= Fib n /\ 0 <= Fib (S n).
Proof.
  induction n as [|n [IH0 IH1]]; [cbn; lia|].
  split; [exact IH1|]. rewrite Fib_step. lia.
Qed.

Lemma Fib_mono_step (n : nat) : Fib n <= Fib (S n).
Proof.
  destruct n as [|n]; [cbn; lia|].
  rewrite Fib_step. pose proof (Fib_nonneg n) as [H _]. lia.
Qed.

Lemma Fib_mono (m n : nat) : (m <= n)%nat -> Fib m <= Fib n.
Proof.
  induction 1 as [|n _ IH]; [lia|].
  pose proof (Fib_mono_step n). lia.
Qed.

Lemma Fib_pair_93 :
  Fib_pair 93 = (12200160415121876738, 19740274219868223167).
Proof. vm_compute. reflexivity. Qed.

Lemma Fib_93_94 :
  Fib 93 = 12200160415121876738 /\ Fib 94 = 19740274219868223167.
Proof.
  pose proof (Fib_pair_spec 93) as H. rewrite Fib_pair_93 in H.
  apply pair_equal_spec in H. destruct H as [H93 H94].
  split; symmetry; assumption.
Qed.

Lemma calls_step (k : nat) : calls (S (S k)) = (1 + calls (S k) + calls k)%nat.
Proof. reflexivity. Qed.

(** ** The recursion of [fibonacci] *)

Lemma fibonacci_unfold (fuel : nat) (ctx : context) (n : Z) (w : World) :
  fibonacci fuel ctx n w =
  let '(ctx1, w1) := fibonacci_span ctx n w in
  if n <=? 1 then Some (n, w1)
  else
    match fuel with
    | O => None
    | S fuel' =>
        match fibonacci fuel' ctx1 (U64.sub n 1) w1 with
        | None => None
        | Some (a, w2) =>
            match fibonacci fuel' ctx1 (U64.sub n 2) w2 with
            | None => None
            | Some (b, w3) => Some (U64.add a b, w3)
            end
        end
    end.
Proof. destruct fuel; reflexivity. Qed.

(** The span a call emits: named after [n], child of the caller's span,
    stamped with the clock reading, and already ended when the recursive
    calls start. *)
Lemma fibonacci_span_eq (ctx : context) (n : Z) (w : World) :
  fibonacci_span ctx n w =
  ({| currentSpan := Some (nextSpanID w) |},
   {| wall := wall w; reads := S (reads w);
      nextSpanID := N.succ (nextSpanID w);
      ended := ended w ++
        [ {| spanID := nextSpanID w; parentID := currentSpan ctx;
             tracerName := "fibonacci"; spanName := Sprintf_fibonacci n;
             attributes := [("timestamp", wall w (reads w))];
             events := [] |} ] |}).
Proof. reflexivity. Qed.

Lemma U64_sub_small (n k : Z) :
  U64.in_range n -> 0 <= k <= n -> U64.sub n k = n - k.
Proof.
  unfold U64.in_range, U64.sub, U64.wrap. intros Hn Hk.
  apply Z.mod_small. lia.
Qed.

Lemma U64_add_wrap (a b : Z) :
  U64.add (U64.wrap a) (U64.wrap b) = U64.wrap (a + b).
Proof.
  unfold U64.add, U64.wrap. symmetry. apply Zplus_mod.
Qed.

Lemma U64_wrap_small (z : Z) : U64.in_range z -> U64.wrap z = z.
Proof. unfold U64.in_range, U64.wrap. intros H. apply Z.mod_small. lia. Qed.

Lemma U64_wrap_range (z : Z) : U64.in_range (U64.wrap z).
Proof.
  unfold U64.in_range, U64.wrap. apply Z.mod_pos_bound. reflexivity.
Qed.

(** Enough fuel gives the result: with [n <= fuel + 1] the call returns
    the [n]-th Fibonacci number reduced modulo [2^64], after ending exactly
    [calls n] spans and reading the clock as often. *)
Lemma fibonacci_run (fuel : nat) :
  forall (ctx : context) (n : Z) (w : World),
    U64.in_range n -> n <= Z.of_nat fuel + 1 ->
    exists w',
      fibonacci fuel ctx n w = Some (U64.wrap (Fib (Z.to_nat n)), w')
      /\ length (ended w') = (length (ended w) + calls (Z.to_nat n))%nat
      /\ wall w' = wall w.
Proof.
  induction fuel as [|fuel IH]; intros ctx n w Hn Hfuel;
    rewrite fibonacci_unfold, fibonacci_span_eq.
  - assert (n = 0 \/ n = 1) as [-> | ->] by (unfold U64.in_range in Hn; lia);
      (eexists; split; [reflexivity|]; cbn [ended]; rewrite length_app; split; reflexivity).
  - destruct (Z.leb_spec n 1) as [Hle|Hgt].
    + assert (n = 0 \/ n = 1) as [-> | ->] by (unfold U64.in_range in Hn; lia);
        (eexists; split; [reflexivity|]; cbn [ended]; rewrite length_app; split; reflexivity).
    + assert (Hr : U64.in_range n) by exact Hn.
      unfold U64.in_range in Hn.
      rewrite (U64_sub_small n 1), (U64_sub_small n 2) by (assumption || lia).
      match goal with
      | |- context [fibonacci fuel ?c (n - 1) ?w1] =>
          destruct (IH c (n - 1) w1) as (w2 & E1 & L1 & W1);
          [u64_range | lia |]
      end.
      rewrite E1.
      destruct (IH {| currentSpan := Some (nextSpanID w) |} (n - 2) w2)
        as (w3 & E2 & L2 & W2); [u64_range | lia |].
      rewrite E2. exists w3.
      assert (Hk : Z.to_nat n = S (S (Z.to_nat (n - 2)))) by lia.
      assert (Hk1 : Z.to_nat (n - 1) = S (Z.to_nat (n - 2))) by lia.
      rewrite Hk, Fib_step, calls_step, <- Hk1, U64_add_wrap.
      split; [reflexivity|]. split.
      * rewrite L2, L1. cbn [ended]. rewrite length_app. cbn [length]. lia.
      * rewrite W2, W1. reflexivity.
Qed.

(** The recursion is [n - 1] calls deep: with less fuel the model gives up. *)
Lemma fibonacci_depth (fuel : nat) :
  forall (ctx : context) (n : Z) (w : World),
    U64.in_range n -> Z.of_nat fuel + 1 < n ->
    fibonacci fuel ctx n w = None.
Proof.
  induction fuel as [|fuel IH]; intros ctx n w Hn Hfuel;
    rewrite fibonacci_unfold, fibonacci_span_eq;
    destruct (Z.leb_spec n 1) as [Hle|Hgt]; try lia; [reflexivity|].
  rewrite (U64_sub_small n 1) by (assumption || lia).
  rewrite IH; [reflexivity | unfold U64.in_range in *; lia | lia].
Qed.

(** More fuel never changes a result. *)
Lemma fibonacci_fuel_mono (fuel : nat) :
  forall (fuel' : nat) (ctx : context) (n : Z) (w : World) (r : Z * World),
    (fuel <= fuel')%nat ->
    fibonacci fuel ctx n w = Some r -> fibonacci fuel' ctx n w = Some r.
Proof.
  induction fuel as [|fuel IH]; intros fuel' ctx n w r Hle;
    rewrite (fibonacci_unfold fuel'), fibonacci_unfold, fibonacci_span_eq;
    destruct (n <=? 1); try (intros; assumption || discriminate).
  destruct fuel' as [|fuel']; [lia|].
  destruct (fibonacci fuel _ (U64.sub n 1) _) as [[a w2]|] eqn:E1;
    [|discriminate].
  rewrite (IH fuel' _ _ _ _ ltac:(lia) E1).
  destruct (fibonacci fuel _ (U64.sub n 2) _) as [[b w3]|] eqn:E2;
    [|discriminate].
  rewrite (IH fuel' _ _ _ _ ltac:(lia) E2). intros H; exact H.
Qed.

(** The returned number is a function of [n] alone: neither the context,
    nor the world (clock readings, span identifiers, spans already ended),
    nor the fuel can change it. *)
Lemma fibonacci_value_indep (fuel1 : nat) :
  forall (fuel2 : nat) (ctx1 ctx2 : context) (n : Z) (w1 w2 : World)
         (r1 r2 : Z) (w1' w2' : World),
    fibonacci fuel1 ctx1 n w1 = Some (r1, w1') ->
    fibonacci fuel2 ctx2 n w2 = Some (r2, w2') ->
    r1 = r2.
Proof.
  induction fuel1 as [|fuel1 IH];
    intros fuel2 ctx1 ctx2 n w1 w2 r1 r2 w1' w2';
    rewrite (fibonacci_unfold fuel2), fibonacci_unfold, !fibonacci_span_eq;
    destruct (n <=? 1); try congruence.
  destruct fuel2 as [|fuel2]; [congruence|].
  destruct (fibonacci fuel1 _ (U64.sub n 1) _) as [[a1 u1]|] eqn:A1;
    [|discriminate].
  destruct (fibonacci fuel1 _ (U64.sub n 2) _) as [[b1 v1]|] eqn:B1;
    [|discriminate].
  destruct (fibonacci fuel2 _ (U64.sub n 1) _) as [[a2 u2]|] eqn:A2;
    [|discriminate].
  destruct (fibonacci fuel2 _ (U64.sub n 2) _) as [[b2 v2]|] eqn:B2;
    [|discriminate].
  intros H1 H2. injection H1 as <- _. injection H2 as <- _.
  rewrite (IH _ _ _ _ _ _ _ _ _ _ A1 A2), (IH _ _ _ _ _ _ _ _ _ _ B1 B2).
  reflexivity.
Qed.

(** ** Properties of [fibonacci] *)

(** C2: [fibonacci(0) = 0], [fibonacci(1) = 1] and [fibonacci(10) = 55],
    whatever the context, the state of the tracer and the clock; the first
    two need no nested call, the third returns as soon as nine nested calls
    are allowed. *)
Theorem C2_fibonacci_values :
  forall (ctx : context) (w : World) (fuel : nat),
    (exists w', fibonacci fuel ctx 0 w = Some (0, w'))
    /\ (exists w', fibonacci fuel ctx 1 w = Some (1, w'))
    /\ (exists w', fibonacci (9 + fuel) ctx 10 w = Some (55, w')).
Proof.
  intros ctx w fuel. repeat split.
  - rewrite fibonacci_unfold, fibonacci_span_eq. eexists. reflexivity.
  - rewrite fibonacci_unfold, fibonacci_span_eq. eexists. reflexivity.
  - destruct (fibonacci_run (9 + fuel) ctx 10 w) as (w' & E & _).
    + u64_range.
    + lia.
    + exists w'. rewrite E. reflexivity.
Qed.

(** C3: [fibonacci] is the textbook recursion.  For [n <= 1] it returns
    [n].  For [n > 1] it runs, one after the other and each in full, the
    call on [n - 1] and the call on [n - 2], both under the context of its
    own span, and returns the [uint64] sum of their two results.  Nothing
    is memoized: a call on [n] ends [calls n] spans, one per call of the
    naive recursion, where [calls n = 1 + calls (n-1) + calls (n-2)]. *)
Theorem C3_fibonacci_textbook_recursion :
  forall (fuel : nat) (ctx : context) (n : Z) (w : World),
    U64.in_range n -> n <= Z.of_nat fuel + 1 ->
    (n <= 1 -> exists w', fibonacci fuel ctx n w = Some (n, w'))
    /\ (1 < n ->
        exists ctx1 w1 a w2 b w3,
          fibonacci_span ctx n w = (ctx1, w1)
          /\ fibonacci (Nat.pred fuel) ctx1 (n - 1) w1 = Some (a, w2)
          /\ fibonacci (Nat.pred fuel) ctx1 (n - 2) w2 = Some (b, w3)
          /\ fibonacci fuel ctx n w = Some (U64.add a b, w3))
    /\ (exists r w',
          fibonacci fuel ctx n w = Some (r, w')
          /\ length (ended w') = (length (ended w) + calls (Z.to_nat n))%nat)
    /\ (1 < n ->
        calls (Z.to_nat n) =
        (1 + calls (Z.to_nat (n - 1)) + calls (Z.to_nat (n - 2)))%nat).
Proof.
  intros fuel ctx n w Hn Hfuel. repeat split.
  - intros Hle. rewrite fibonacci_unfold, fibonacci_span_eq.
    destruct (Z.leb_spec n 1); [|lia]. eexists. reflexivity.
  - intros Hgt. destruct fuel as [|fuel]; [lia|]. cbn [Nat.pred].
    rewrite fibonacci_unfold, fibonacci_span_eq.
    destruct (Z.leb_spec n 1); [lia|].
    rewrite (U64_sub_small n 1), (U64_sub_small n 2)
      by (assumption || unfold U64.in_range in Hn; lia).
    match goal with
    | |- context [fibonacci fuel ?c (n - 1) ?w1] =>
        destruct (fibonacci_run fuel c (n - 1) w1) as (w2 & E1 & _);
        [u64_range | lia |];
        destruct (fibonacci_run fuel c (n - 2) w2) as (w3 & E2 & _);
        [u64_range | lia |];
        exists c, w1
    end.
    eexists _, w2, _, w3. rewrite E1, E2. repeat split; reflexivity.
  - destruct (fibonacci_run fuel ctx n w Hn Hfuel) as (w' & E & L & _).
    eauto.
  - intros Hgt.
    assert (Hk : Z.to_nat n = S (S (Z.to_nat (n - 2)))) by lia.
    assert (Hk1 : Z.to_nat (n - 1) = S (Z.to_nat (n - 2))) by lia.
    rewrite Hk, Hk1. apply calls_step.
Qed.

Lemma C3_fibonacci_textbook_recursion_witness :
  exists a b w3,
    fibonacci 4 background 5 (World0 (fun _ => 0)) = Some (U64.add a b, w3)
    /\ length (ended w3) = 15%nat.
Proof.
  assert (H5 : U64.in_range 5) by (unfold U64.in_range, U64.modulus; lia).
  assert (Hf : 5 <= Z.of_nat 4 + 1) by lia.
  destruct (C3_fibonacci_textbook_recursion 4 background 5
              (World0 (fun _ => 0)) H5 Hf) as (_ & Hrec & Hcalls & _).
  destruct (Hrec ltac:(lia)) as (ctx1 & w1 & a & w2 & b & w3 & _ & _ & _ & E).
  exists a, b, w3. split; [exact E|].
  destruct Hcalls as (r & w' & E' & L).
  rewrite E in E'. injection E' as _ <-. exact L.
Defined.

Lemma fuel_enough (n : Z) : U64.in_range n -> n <= Z.of_nat (Z.to_nat n) + 1.
Proof. unfold U64.in_range. lia. Qed.

Lemma in_range_small (n : Z) : 0 <= n <= 94 -> U64.in_range n.
Proof. u64_range. Qed.

(** C8: [fibonacci] returns on every [uint64] input: the nested calls are
    on [n - 1] and [n - 2], which do not wrap above the base case
    [n <= 1], so [n] nested calls are always enough.  This covers the
    inputs the handler produces from a negative [int64] [x], which are
    [2^64 + x]. *)
Theorem C8_fibonacci_terminates :
  forall (x : Z) (ctx : context) (w : World),
    (U64.in_range x ->
     exists r w', fibonacci (Z.to_nat x) ctx x w = Some (r, w'))
    /\ (- 2 ^ 63 <= x < 0 ->
        U64.of_int64 x = 2 ^ 64 + x
        /\ exists r w',
             fibonacci (Z.to_nat (U64.of_int64 x)) ctx (U64.of_int64 x) w
             = Some (r, w')).
Proof.
  intros x ctx w. split.
  - intros Hx.
    destruct (fibonacci_run (Z.to_nat x) ctx x w Hx (fuel_enough x Hx))
      as (w' & E & _).
    eauto.
  - intros Hx.
    assert (Hr : U64.in_range (U64.of_int64 x)) by apply U64_wrap_range.
    split.
    + unfold U64.of_int64, U64.wrap, U64.modulus.
      symmetry. apply (Z.mod_unique _ _ (-1)); lia.
    + destruct (fibonacci_run _ ctx _ w Hr (fuel_enough _ Hr)) as (w' & E & _).
      eauto.
Qed.

Lemma C8_fibonacci_terminates_witness :
  (exists r w',
     fibonacci (Z.to_nat 7) background 7 (World0 (fun _ => 0)) = Some (r, w'))
  /\ U64.of_int64 (-1) = 2 ^ 64 + -1.
Proof.
  split.
  - refine (proj1 (C8_fibonacci_terminates 7 background
                     (World0 (fun _ => 0))) _).
    u64_range.
  - refine (proj1 (proj2 (C8_fibonacci_terminates (-1) background
                            (World0 (fun _ => 0))) _)).
    lia.
Defined.

(** C9: the number [fibonacci] returns depends on [n] only.  For every
    [uint64] [n] there is one value [r] that the call returns from any two
    contexts and any two worlds (clock, span identifiers, spans recorded so
    far), and no call on [n], with any context, world or fuel, returns
    anything else. *)
Theorem C9_fibonacci_result_depends_only_on_n :
  forall (n : Z) (ctx1 ctx2 : context) (w1 w2 : World),
    U64.in_range n ->
    exists r w1' w2',
      fibonacci (Z.to_nat n) ctx1 n w1 = Some (r, w1')
      /\ fibonacci (Z.to_nat n) ctx2 n w2 = Some (r, w2')
      /\ forall fuel ctx w r' w',
           fibonacci fuel ctx n w = Some (r', w') -> r' = r.
Proof.
  intros n ctx1 ctx2 w1 w2 Hn.
  destruct (fibonacci_run _ ctx1 n w1 Hn (fuel_enough n Hn)) as (w1' & E1 & _).
  destruct (fibonacci_run _ ctx2 n w2 Hn (fuel_enough n Hn)) as (w2' & E2 & _).
  exists (U64.wrap (Fib (Z.to_nat n))), w1', w2'.
  repeat split; [exact E1 | exact E2 |].
  intros fuel ctx w r' w' E.
  exact (fibonacci_value_indep _ _ _ _ _ _ _ _ _ _ _ E E1).
Qed.

Lemma C9_fibonacci_result_depends_only_on_n_witness :
  exists r w1' w2',
    fibonacci (Z.to_nat 6) background 6 (World0 (fun _ => 0)) = Some (r, w1')
    /\ fibonacci (Z.to_nat 6) {| currentSpan := Some 41%N |} 6
         {| wall := Z.of_nat; reads := 3; nextSpanID := 42; ended := [] |}
       = Some (r, w2').
Proof.
  destruct (C9_fibonacci_result_depends_only_on_n 6 background
              {| currentSpan := Some 41%N |} (World0 (fun _ => 0))
              {| wall := Z.of_nat; reads := 3; nextSpanID := 42; ended := [] |})
    as (r & w1' & w2' & E1 & E2 & _).
  - u64_range.
  - exists r, w1', w2'. split; assumption.
Defined.

(** C10: the result is the mathematical Fibonacci number modulo [2^64] for
    every [uint64] [n]; it is the Fibonacci number itself for [n <= 93];
    and at [n = 94] it is not ([Fib 94 > 2^64]). *)
Theorem C10_fibonacci_modulo_2_64 :
  forall (ctx : context) (w : World),
    (forall n, U64.in_range n ->
       exists w', fibonacci (Z.to_nat n) ctx n w
                  = Some (Fib (Z.to_nat n) mod 2 ^ 64, w'))
    /\ (forall n, 0 <= n <= 93 ->
          exists w', fibonacci (Z.to_nat n) ctx n w
                     = Some (Fib (Z.to_nat n), w'))
    /\ (exists n r w',
          94 <= n /\ U64.in_range n
          /\ fibonacci (Z.to_nat n) ctx n w = Some (r, w')
          /\ r <> Fib (Z.to_nat n)).
Proof.
  intros ctx w. split; [|split].
  - intros n Hn.
    destruct (fibonacci_run _ ctx n w Hn (fuel_enough n Hn)) as (w' & E & _).
    exists w'. exact E.
  - intros n Hn.
    assert (Hr : U64.in_range n) by (apply in_range_small; lia).
    destruct (fibonacci_run _ ctx n w Hr (fuel_enough n Hr)) as (w' & E & _).
    exists w'. rewrite E. do 2 f_equal. apply U64_wrap_small.
    pose proof (Fib_nonneg (Z.to_nat n)) as [H0 _].
    pose proof (Fib_mono (Z.to_nat n) 93 ltac:(lia)) as Hle.
    rewrite (proj1 Fib_93_94) in Hle.
    u64_range.
  - assert (Hr : U64.in_range 94) by (apply in_range_small; lia).
    destruct (fibonacci_run _ ctx 94 w Hr (fuel_enough 94 Hr)) as (w' & E & _).
    exists 94, (U64.wrap (Fib (Z.to_nat 94))), w'.
    split; [lia|]. split; [exact Hr|]. split; [exact E|].
    replace (Z.to_nat 94) with 94%nat by reflexivity.
    rewrite (proj2 Fib_93_94). unfold U64.wrap, U64.modulus.
    intros H. vm_compute in H. discriminate H.
Qed.

Lemma C10_fibonacci_modulo_2_64_witness :
  (exists w', fibonacci (Z.to_nat 12) background 12 (World0 (fun _ => 0))
              = Some (Fib (Z.to_nat 12) mod 2 ^ 64, w'))
  /\ (exists w', fibonacci (Z.to_nat 12) background 12 (World0 (fun _ => 0))
                 = Some (Fib (Z.to_nat 12), w')).
Proof.
  destruct (C10_fibonacci_modulo_2_64 background (World0 (fun _ => 0)))
    as (Hmod & Hexact & _).
  split.
  - refine (Hmod 12 _). u64_range.
  - refine (Hexact 12 _). lia.
Defined.

(** ** Decimal text *)

Lemma digit_char_ok (d : Z) :
  0 <= d < 10 -> strconv.digit_of (strconv.byte_of (strconv.digit_char d)) = Some d.
Proof.
  intros Hd.
  assert (d = 0 \/ d = 1 \/ d = 2 \/ d = 3 \/ d = 4 \/ d = 5 \/ d = 6
          \/ d = 7 \/ d = 8 \/ d = 9) as H by lia.
  repeat (destruct H as [-> | H]; [reflexivity|]). subst d. reflexivity.
Qed.

(** One round of the parsing loop on a decimal digit that does not
    overflow. *)
Lemma parseUint_loop_digit (d n : Z) (rest : string) :
  0 <= d < 10 -> 0 <= n -> n * 10 + d <= U64.maxUint64 ->
  strconv.parseUint_loop (String (strconv.digit_char d) rest) n
  = strconv.parseUint_loop rest (n * 10 + d).
Proof.
  intros Hd Hn Hmax. cbn [strconv.parseUint_loop].
  rewrite (digit_char_ok d Hd).
  unfold strconv.base, strconv.cutoff, strconv.maxVal, U64.mul, U64.add,
    U64.wrap, U64.maxUint64, U64.modulus in *.
  destruct (Z.leb_spec 10 d); [lia|].
  change (Z.pow_pos 2 64) with 18446744073709551616 in *.
  change (2 ^ 64) with 18446744073709551616 in *.
  change ((18446744073709551616 - 1) / 10 + 1) with 1844674407370955162.
  destruct (Z.leb_spec 1844674407370955162 n); [lia|].
  rewrite (Z.mod_small (n * 10)) by lia.
  rewrite (Z.mod_small (n * 10 + d)) by lia.
  destruct (Z.ltb_spec (n * 10 + d) (n * 10)); [lia|].
  destruct (Z.ltb_spec (18446744073709551616 - 1) (n * 10 + d)); [lia|].
  reflexivity.
Qed.

Lemma parseUint_loop_formatBits (k : nat) :
  forall (u n : Z) (acc : string),
    0 <= u < 10 ^ Z.of_nat k -> 0 <= n ->
    exists len : nat,
      n * 10 ^ Z.of_nat len + u <= U64.maxUint64 ->
      strconv.parseUint_loop (strconv.formatBits k u acc) n
      = strconv.parseUint_loop acc (n * 10 ^ Z.of_nat len + u).
Proof.
  induction k as [|k IH]; intros u n acc Hu Hn.
  - exists 0%nat. intros _. cbn [strconv.formatBits].
    change (10 ^ Z.of_nat 0) with 1 in *. f_equal. lia.
  - cbn [strconv.formatBits]. destruct (Z.ltb_spec u 10) as [Hlt|Hge].
    + exists 1%nat. change (10 ^ Z.of_nat 1) with 10. intros Hmax.
      rewrite (Z.mod_small u 10) by lia.
      apply parseUint_loop_digit; lia.
    + assert (Hdiv : 0 <= u / 10 < 10 ^ Z.of_nat k).
      { rewrite Nat2Z.inj_succ, Z.pow_succ_r in Hu by lia.
        split; [apply Z.div_pos; lia|].
        apply Z.div_lt_upper_bound; lia. }
      destruct (IH (u / 10) n
                  (String (strconv.digit_char (u mod 10)) acc) Hdiv Hn)
        as (len & Hlen).
      exists (S len). intros Hmax.
      rewrite Nat2Z.inj_succ, Z.pow_succ_r in Hmax by lia.
      pose proof (Z.div_mod u 10 ltac:(lia)) as Hdm.
      pose proof (Z.mod_pos_bound u 10 ltac:(lia)) as Hmod.
      assert (0 <= 10 ^ Z.of_nat len) by (apply Z.pow_nonneg; lia).
      rewrite Hlen by nia.
      rewrite parseUint_loop_digit by nia.
      f_equal. rewrite Nat2Z.inj_succ, Z.pow_succ_r by lia. nia.
Qed.

Lemma formatBits_nonempty (k : nat) (u : Z) (acc : string) :
  strconv.formatBits (S k) u acc <> "".
Proof.
  revert u acc. induction k as [|k IH]; intros u acc;
    cbn [strconv.formatBits]; destruct (u <? 10); try discriminate.
  apply (IH (u / 10)).
Qed.

(** Reading back what [FormatUint] printed gives the number. *)
Lemma ParseUint_FormatUint (u : Z) :
  U64.in_range u -> strconv.ParseUint (strconv.FormatUint u) = (u, None).
Proof.
  intros Hu. unfold strconv.ParseUint, strconv.FormatUint.
  pose proof (formatBits_nonempty 19 u "") as Hne.
  destruct (strconv.formatBits 20 u "") as [|c s] eqn:E; [congruence|].
  rewrite <- E.
  destruct (parseUint_loop_formatBits 20 u 0 "") as (len & Hlen);
    [unfold U64.in_range, U64.modulus in Hu; change (10 ^ Z.of_nat 20) with 100000000000000000000; lia | lia |].
  rewrite Hlen; [reflexivity|].
  unfold U64.in_range, U64.maxUint64 in *. lia.
Qed.

(** ** The [/fibonacci] handler *)

Lemma Values_Get_GET_n (v : string) : Values_Get (query (GET_n v)) "n" = v.
Proof.
  unfold Values_Get, GET_n. cbn [query].
  rewrite lookup_singleton_eq. reflexivity.
Qed.

(** The two paths of the handler, selected by the error of [ParseInt]. *)
Lemma ServeHTTP_parsed (fuel : nat) (resp : ResponseWriter) (req : Request)
    (w : World) (v : Z) :
  strconv.ParseInt (Values_Get (query req) "n") = (v, None) ->
  fibonacciHandler_ServeHTTP fuel resp req w =
  match fibonacci fuel (reqContext req) (U64.of_int64 v) w with
  | None => None
  | Some (ret, w1) =>
      Some (Write (strconv.FormatUint ret) (WriteHeader StatusOK resp), w1)
  end.
Proof. intros H. unfold fibonacciHandler_ServeHTTP. rewrite H. reflexivity. Qed.

Lemma ServeHTTP_rejected (fuel : nat) (resp : ResponseWriter) (req : Request)
    (w : World) (v : Z) (e : strconv.Err) :
  strconv.ParseInt (Values_Get (query req) "n") = (v, Some e) ->
  fibonacciHandler_ServeHTTP fuel resp req w =
  Some (Write "n is not a number" (WriteHeader StatusBadRequest resp), w).
Proof. intros H. unfold fibonacciHandler_ServeHTTP. rewrite H. reflexivity. Qed.

(** A parsed request is answered as soon as the fuel covers the depth of
    the recursion: status 200, and the decimal text of what [fibonacci]
    returned on [uint64(nCount)], a numeral that reads back as that value. *)
Lemma ServeHTTP_ok (req : Request) (w : World) (v : Z) :
  strconv.ParseInt (Values_Get (query req) "n") = (v, None) ->
  exists ret w',
    fibonacci (Z.to_nat (U64.of_int64 v)) (reqContext req) (U64.of_int64 v) w
    = Some (ret, w')
    /\ strconv.ParseUint (strconv.FormatUint ret) = (ret, None)
    /\ forall fuel, (Z.to_nat (U64.of_int64 v) <= fuel)%nat ->
         exists resp,
           fibonacciHandler_ServeHTTP fuel newResponse req w = Some (resp, w')
           /\ response_of resp = (StatusOK, strconv.FormatUint ret).
Proof.
  intros Hparse.
  assert (Hr : U64.in_range (U64.of_int64 v)) by apply U64_wrap_range.
  destruct (fibonacci_run _ (reqContext req) _ w Hr (fuel_enough _ Hr))
    as (w' & E & _).
  eexists _, w'. split; [exact E|].
  split; [apply ParseUint_FormatUint, U64_wrap_range|].
  intros fuel Hfuel.
  rewrite (ServeHTTP_parsed _ _ _ _ _ Hparse).
  rewrite (fibonacci_fuel_mono _ fuel _ _ _ _ Hfuel E).
  eexists. split; reflexivity.
Qed.

(** C1: when [n] parses, the answer is status 200 and its body is the
    decimal text of the value [fibonacci] computes on the parsed number
    converted to [uint64] (the text [FormatUint] prints, which reads back
    as that value); for [n=10] it is status 200 with body [55]. *)
Theorem C1_fibonacci_handler_ok :
  forall (req : Request) (w : World),
    (forall v,
       strconv.ParseInt (Values_Get (query req) "n") = (v, None) ->
       exists ret w',
         fibonacci (Z.to_nat (U64.of_int64 v)) (reqContext req)
                   (U64.of_int64 v) w = Some (ret, w')
         /\ strconv.ParseUint (strconv.FormatUint ret) = (ret, None)
         /\ forall fuel, (Z.to_nat (U64.of_int64 v) <= fuel)%nat ->
              exists resp,
                fibonacciHandler_ServeHTTP fuel newResponse req w
                = Some (resp, w')
                /\ response_of resp = (StatusOK, strconv.FormatUint ret))
    /\ (Values_Get (query req) "n" = "10" ->
        exists resp w',
          fibonacciHandler_ServeHTTP 9 newResponse req w = Some (resp, w')
          /\ response_of resp = (200, "55")).
Proof.
  intros req w. split.
  - intros v Hparse. exact (ServeHTTP_ok req w v Hparse).
  - intros Hn.
    assert (Hparse : strconv.ParseInt (Values_Get (query req) "n") = (10, None))
      by (rewrite Hn; reflexivity).
    rewrite (ServeHTTP_parsed _ _ _ _ _ Hparse).
    change (U64.of_int64 10) with 10.
    destruct (fibonacci_run 9 (reqContext req) 10 w) as (w' & E & _);
      [apply in_range_small; lia | lia |].
    rewrite E. eexists _, w'. split; reflexivity.
Qed.

Lemma C1_fibonacci_handler_ok_witness :
  (exists ret w',
     fibonacci (Z.to_nat (U64.of_int64 10)) background (U64.of_int64 10)
               (World0 (fun _ => 0)) = Some (ret, w')
     /\ exists resp,
          fibonacciHandler_ServeHTTP 12 newResponse (GET_n "10")
                                     (World0 (fun _ => 0)) = Some (resp, w')
          /\ response_of resp = (StatusOK, strconv.FormatUint ret))
  /\ (exists resp w',
        fibonacciHandler_ServeHTTP 9 newResponse (GET_n "10")
                                   (World0 (fun _ => 0)) = Some (resp, w')
        /\ response_of resp = (200, "55")).
Proof.
  destruct (C1_fibonacci_handler_ok (GET_n "10") (World0 (fun _ => 0)))
    as [Hany Hten].
  split.
  - assert (Hparse : strconv.ParseInt (Values_Get (query (GET_n "10")) "n")
                     = (10, None)) by (vm_compute; reflexivity).
    destruct (Hany 10 Hparse) as (ret & w' & E & _ & Hserve).
    exists ret, w'. split; [exact E|].
    apply (Hserve 12%nat). vm_compute. lia.
  - apply Hten. vm_compute. reflexivity.
Defined.

(** C4: when [n] does not parse, the answer is status 400 with the body
    [n is not a number], and nothing is traced.  It is the only way to an
    answer other than 200: an answer that is not 200 is this one and comes
    from a parse error, and a request that parses is answered with 200.
    For [n=abc] the answer is 400 with that body. *)
Theorem C4_fibonacci_handler_parse_error :
  forall (req : Request) (w : World) (fuel : nat),
    (forall v e,
       strconv.ParseInt (Values_Get (query req) "n") = (v, Some e) ->
       exists resp,
         fibonacciHandler_ServeHTTP fuel newResponse req w = Some (resp, w)
         /\ response_of resp = (StatusBadRequest, "n is not a number"))
    /\ (forall resp w',
          fibonacciHandler_ServeHTTP fuel newResponse req w = Some (resp, w') ->
          fst (response_of resp) <> StatusOK ->
          response_of resp = (StatusBadRequest, "n is not a number")
          /\ exists v e,
               strconv.ParseInt (Values_Get (query req) "n") = (v, Some e))
    /\ (forall v,
          strconv.ParseInt (Values_Get (query req) "n") = (v, None) ->
          exists fuel' resp w',
            fibonacciHandler_ServeHTTP fuel' newResponse req w
            = Some (resp, w')
            /\ fst (response_of resp) = StatusOK)
    /\ (Values_Get (query req) "n" = "abc" ->
        exists resp,
          fibonacciHandler_ServeHTTP fuel newResponse req w = Some (resp, w)
          /\ response_of resp = (400, "n is not a number")).
Proof.
  intros req w fuel. split; [|split; [|split]].
  - intros v e Hparse. rewrite (ServeHTTP_rejected _ _ _ _ _ _ Hparse).
    eexists. split; reflexivity.
  - intros resp w' Hserve Hstatus.
    destruct (strconv.ParseInt (Values_Get (query req) "n")) as [v [e|]] eqn:Hparse.
    + rewrite (ServeHTTP_rejected _ _ _ _ _ _ Hparse) in Hserve.
      injection Hserve as <- <-. split; [reflexivity|eauto].
    + rewrite (ServeHTTP_parsed _ _ _ _ _ Hparse) in Hserve.
      destruct (fibonacci fuel _ _ _) as [[ret w1]|]; [|discriminate].
      injection Hserve as <- <-. exfalso. apply Hstatus. reflexivity.
  - intros v Hparse.
    destruct (ServeHTTP_ok req w v Hparse) as (ret & w' & _ & _ & Hserve).
    destruct (Hserve _ (Nat.le_refl _)) as (resp & E & R).
    exists (Z.to_nat (U64.of_int64 v)), resp, w'.
    split; [exact E|]. rewrite R. reflexivity.
  - intros Hn.
    assert (Hparse : strconv.ParseInt (Values_Get (query req) "n")
                     = (0, Some strconv.ErrSyntax))
      by (rewrite Hn; reflexivity).
    rewrite (ServeHTTP_rejected _ _ _ _ _ _ Hparse).
    eexists. split; reflexivity.
Qed.

Lemma C4_fibonacci_handler_parse_error_witness :
  (exists resp,
     fibonacciHandler_ServeHTTP 0 newResponse (GET_n "1e3")
                                (World0 (fun _ => 0))
     = Some (resp, World0 (fun _ => 0))
     /\ response_of resp = (StatusBadRequest, "n is not a number"))
  /\ (exists v e,
        strconv.ParseInt (Values_Get (query (GET_n "1e3")) "n") = (v, Some e))
  /\ (exists fuel' resp w',
        fibonacciHandler_ServeHTTP fuel' newResponse (GET_n "7")
                                   (World0 (fun _ => 0)) = Some (resp, w')
        /\ fst (response_of resp) = StatusOK)
  /\ (exists resp,
        fibonacciHandler_ServeHTTP 0 newResponse (GET_n "abc")
                                   (World0 (fun _ => 0))
        = Some (resp, World0 (fun _ => 0))
        /\ response_of resp = (400, "n is not a number")).
Proof.
  destruct (C4_fibonacci_handler_parse_error (GET_n "1e3")
              (World0 (fun _ => 0)) 0) as (Hrej & Honly & _ & _).
  destruct (C4_fibonacci_handler_parse_error (GET_n "7")
              (World0 (fun _ => 0)) 0) as (_ & _ & Hok & _).
  destruct (C4_fibonacci_handler_parse_error (GET_n "abc")
              (World0 (fun _ => 0)) 0) as (_ & _ & _ & Habc).
  split; [|split; [|split]].
  - apply (Hrej 0 strconv.ErrSyntax). vm_compute. reflexivity.
  - refine (proj2 (Honly (Write "n is not a number"
                            (WriteHeader StatusBadRequest newResponse))
                         (World0 (fun _ => 0)) _ _)).
    + vm_compute. reflexivity.
    + vm_compute. discriminate.
  - apply (Hok 7). vm_compute. reflexivity.
  - apply Habc. vm_compute. reflexivity.
Defined.

(** The first span a call ends is its own: every span recorded before the
    call is kept, and the next one carries the name built from [n]. *)
Lemma fibonacci_first_span (fuel : nat) :
  forall (ctx : context) (n : Z) (w : World) (r : Z) (w' : World),
    fibonacci fuel ctx n w = Some (r, w') ->
    exists sp rest,
      ended w' = (ended w ++ sp :: rest)%list
      /\ spanName sp = Sprintf_fibonacci n
      /\ parentID sp = currentSpan ctx.
Proof.
  induction fuel as [|fuel IH]; intros ctx n w r w';
    rewrite fibonacci_unfold, fibonacci_span_eq;
    destruct (n <=? 1).
  - intros [= <- <-]. eexists _, []. cbn [ended]. repeat split.
  - discriminate.
  - intros [= <- <-]. eexists _, []. cbn [ended]. repeat split.
  - destruct (fibonacci fuel _ (U64.sub n 1) _) as [[a w2]|] eqn:E1;
      [|discriminate].
    destruct (fibonacci fuel _ (U64.sub n 2) _) as [[b w3]|] eqn:E2;
      [|discriminate].
    intros [= <- <-].
    destruct (IH _ _ _ _ _ E1) as (s1 & rest1 & L1 & _).
    destruct (IH _ _ _ _ _ E2) as (s2 & rest2 & L2 & _).
    rewrite L2, L1. cbn [ended]. rewrite <- !app_assoc. cbn [app].
    eexists _, _. repeat split.
Qed.

(** C5: a negative [n] is not rejected.  [n=-1] parses, the conversion to
    [uint64] turns it into [2^64 - 1], and the handler calls [fibonacci] on
    that number: the first span of the request is named after it, and the
    answer, once the recursion has returned, is status 200.  No fuel makes
    the handler answer this request with status 400. *)
Theorem C5_negative_n_reaches_fibonacci :
  strconv.ParseInt "-1" = (-1, None)
  /\ U64.of_int64 (-1) = 18446744073709551615
  /\ (forall w : World,
      exists fuel ret resp w' sp rest,
        fibonacci fuel background 18446744073709551615 w = Some (ret, w')
        /\ fibonacciHandler_ServeHTTP fuel newResponse (GET_n "-1") w
           = Some (resp, w')
        /\ response_of resp = (StatusOK, strconv.FormatUint ret)
        /\ ended w' = (ended w ++ sp :: rest)%list
        /\ spanName sp = "fibonacci-18446744073709551615")
  /\ (forall (fuel : nat) (w : World),
        match fibonacciHandler_ServeHTTP fuel newResponse (GET_n "-1") w with
        | Some (resp, _) => fst (response_of resp) = StatusOK
        | None => True
        end).
Proof.
  assert (Hparse : strconv.ParseInt (Values_Get (query (GET_n "-1")) "n")
                   = (-1, None))
    by (rewrite Values_Get_GET_n; reflexivity).
  assert (Hconv : U64.of_int64 (-1) = 18446744073709551615) by reflexivity.
  split; [reflexivity|]. split; [exact Hconv|]. split.
  - intros w.
    destruct (ServeHTTP_ok (GET_n "-1") w (-1) Hparse)
      as (ret & w' & E & _ & Hserve).
    destruct (Hserve _ (Nat.le_refl _)) as (resp & S & R).
    rewrite Hconv in E, S.
    destruct (fibonacci_first_span _ _ _ _ _ _ E) as (sp & rest & L & Hname & _).
    exists (Z.to_nat 18446744073709551615), ret, resp, w', sp, rest.
    split; [exact E|]. split; [exact S|]. split; [exact R|].
    split; [exact L|]. rewrite Hname. reflexivity.
  - intros fuel w. rewrite (ServeHTTP_parsed _ _ _ _ _ Hparse).
    destruct (fibonacci fuel _ _ _) as [[ret w1]|]; reflexivity || exact I.
Qed.

(** ** The [/nested] handler *)

(** C6: for every request the handler writes nothing, so the answer is
    status 200 with an empty body; its only effect is to end two spans, the
    child first: [child], whose parent is the span [parent], and [parent],
    whose parent is whatever span the request context carried. *)
Theorem C6_nested_handler :
  forall (req : Request) (w : World),
    exists resp w' parent child,
      nestedSpanHandler_ServeHTTP newResponse req w = (resp, w')
      /\ response_of resp = (200, "")
      /\ ended w' = (ended w ++ [child; parent])%list
      /\ spanName parent = "parent" /\ tracerName parent = "nested"
      /\ spanName child = "child" /\ tracerName child = "nested"
      /\ parentID parent = currentSpan (reqContext req)
      /\ parentID child = Some (spanID parent)
      /\ events parent = ["parent event"]
      /\ attributes parent = [("parentId", wall w (reads w))]
      /\ attributes child = [("childId", wall w (S (reads w)))]
      /\ wall w' = wall w /\ reads w' = S (S (reads w))
      /\ nextSpanID w' = N.succ (N.succ (nextSpanID w)).
Proof.
  intros req w. eexists _, _, _, _.
  split; [reflexivity|]. cbn. rewrite <- app_assoc. cbn [app].
  repeat split.
Qed.

(** ** The background counter *)

Section Loop.

Variable latency : nat -> N.

Lemma run_add (a b : nat) (s : Ticker.State) :
  Ticker.run latency (a + b) s =
  match Ticker.run latency a s with
  | Ticker.Next s' => Ticker.run latency b s'
  | o => o
  end.
Proof.
  revert s. induction a as [|a IH]; intros s; [reflexivity|].
  cbn [Nat.add Ticker.run]. destruct (Ticker.step latency s); auto.
Qed.

Lemma total_latency_nonneg (k : nat) : 0 <= total_latency latency k.
Proof. induction k as [|k IH]; cbn [total_latency]; lia. Qed.

Lemma counter_value_tick (k : nat) :
  counter_value ["1"; "db1"] (Ticker.counters (tick_state latency k))
  = N.of_nat k.
Proof.
  unfold counter_value. cbn [tick_state Ticker.counters children].
  destruct k as [|k]; cbn [tick_children].
  - rewrite lookup_empty. reflexivity.
  - rewrite lookup_singleton_eq. reflexivity.
Qed.

Lemma tick_children_succ (k : nat) :
  <[ ["1"; "db1"] := N.succ (N.of_nat k) ]> (tick_children k)
  = tick_children (S k).
Proof.
  rewrite <- Nat2N.inj_succ.
  destruct k as [|k]; cbn [tick_children].
  - apply insert_empty.
  - apply insert_singleton_eq.
Qed.

(** The increment of the loop body, on the vector as it is after [k]
    rounds: two values for two label names, so no panic. *)
Lemma Inc_tick (k : nat) :
  WithLabelValues_Inc ["1"; "db1"] (Ticker.counters (tick_state latency k))
  = Some (Ticker.counters (tick_state latency (S k))).
Proof.
  unfold WithLabelValues_Inc. rewrite counter_value_tick.
  cbn [tick_state Ticker.counters variableLabels metricName children].
  rewrite tick_children_succ.
  destruct (decide _) as [_|Hne]; [reflexivity|].
  exfalso. apply Hne. reflexivity.
Qed.

(** The three states inside round [k]: the timer has fired, one second
    after it was armed; the value was received; the counter was
    incremented. *)
Lemma run_1_tick (k : nat) :
  Ticker.run latency 1 (tick_state latency k)
  = Ticker.Next
      {| Ticker.pc := Ticker.AtReceive; Ticker.timer := Ticker.Fired;
         Ticker.elapsed :=
           Z.of_nat k * Second + total_latency latency k + Second;
         Ticker.rounds := k;
         Ticker.counters := Ticker.counters (tick_state latency k) |}.
Proof. reflexivity. Qed.

Lemma run_2_tick (k : nat) :
  Ticker.run latency 2 (tick_state latency k)
  = Ticker.Next
      {| Ticker.pc := Ticker.AtInc; Ticker.timer := Ticker.Drained;
         Ticker.elapsed :=
           Z.of_nat k * Second + total_latency latency k + Second;
         Ticker.rounds := k;
         Ticker.counters := Ticker.counters (tick_state latency k) |}.
Proof. reflexivity. Qed.

Lemma run_3_tick (k : nat) :
  Ticker.run latency 3 (tick_state latency k)
  = Ticker.Next
      {| Ticker.pc := Ticker.AtReset; Ticker.timer := Ticker.Drained;
         Ticker.elapsed :=
           Z.of_nat k * Second + total_latency latency k + Second;
         Ticker.rounds := k;
         Ticker.counters := Ticker.counters (tick_state latency (S k)) |}.
Proof.
  change 3%nat with (2 + 1)%nat. rewrite run_add, run_2_tick.
  cbn [Ticker.run Ticker.step Ticker.pc Ticker.counters Ticker.timer
       Ticker.elapsed Ticker.rounds].
  rewrite Inc_tick. reflexivity.
Qed.

Lemma run_4_tick (k : nat) :
  Ticker.run latency 4 (tick_state latency k)
  = Ticker.Next (tick_state latency (S k)).
Proof.
  change 4%nat with (3 + 1)%nat. rewrite run_add, run_3_tick.
  cbn [Ticker.run Ticker.step Ticker.pc Ticker.counters Ticker.timer
       Ticker.elapsed Ticker.rounds].
  unfold tick_state. cbn [total_latency]. do 2 f_equal. lia.
Qed.

Lemma after_ticks_state (k : nat) :
  Ticker.after_ticks latency k = Ticker.Next (tick_state latency k).
Proof.
  unfold Ticker.after_ticks. induction k as [|k IH]; [reflexivity|].
  replace (1 + 4 * S k)%nat with ((1 + 4 * k) + 4)%nat by lia.
  rewrite run_add, IH. apply run_4_tick.
Qed.

(** The goroutine after any number of steps: it is in a state (it has
    neither blocked forever, nor panicked, nor left the loop), the vector
    is still [countPerSec] with the label names it was created with, the
    counter is the number of increments done, one every four steps, and
    at least as many seconds have passed. *)
Lemma run_state (m : nat) :
  exists s,
    Ticker.run latency m Ticker.init = Ticker.Next s
    /\ metricName (Ticker.counters s) = "countPerSec"
    /\ variableLabels (Ticker.counters s) = ["id"; "database"]
    /\ counter_value ["1"; "db1"] (Ticker.counters s) = N.of_nat (m / 4)
    /\ Z.of_nat (m / 4) * 1000000000 <= Ticker.elapsed s.
Proof.
  destruct m as [|m];
    [eexists; split; [reflexivity|]; cbn; repeat split; lia|].
  pose proof (Nat.div_mod_eq m 4) as Hm.
  assert (Hj : (m mod 4 < 4)%nat) by (apply Nat.mod_upper_bound; lia).
  set (k := (m / 4)%nat) in *. set (j := (m mod 4)%nat) in *.
  replace (S m) with ((1 + 4 * k) + j)%nat by lia.
  rewrite run_add. fold (Ticker.after_ticks latency k).
  rewrite after_ticks_state.
  pose proof (total_latency_nonneg k) as Hk.
  pose proof (total_latency_nonneg (S k)) as HSk.
  assert (j = 0 \/ j = 1 \/ j = 2 \/ j = 3)%nat
    as [-> | [-> | [-> | ->]]] by lia.
  - exists (tick_state latency k). split; [reflexivity|].
    rewrite counter_value_tick.
    replace ((1 + 4 * k + 0) / 4)%nat with k
      by (apply (Nat.div_unique _ 4 k 1); lia).
    cbn [tick_state Ticker.counters Ticker.elapsed metricName variableLabels].
    unfold Second. repeat split; lia.
  - rewrite run_1_tick. eexists. split; [reflexivity|].
    cbn [Ticker.counters Ticker.elapsed]. rewrite counter_value_tick.
    replace ((1 + 4 * k + 1) / 4)%nat with k
      by (apply (Nat.div_unique _ 4 k 2); lia).
    cbn [tick_state Ticker.counters metricName variableLabels].
    unfold Second. repeat split; lia.
  - rewrite run_2_tick. eexists. split; [reflexivity|].
    cbn [Ticker.counters Ticker.elapsed]. rewrite counter_value_tick.
    replace ((1 + 4 * k + 2) / 4)%nat with k
      by (apply (Nat.div_unique _ 4 k 3); lia).
    cbn [tick_state Ticker.counters metricName variableLabels].
    unfold Second. repeat split; lia.
  - rewrite run_3_tick. eexists. split; [reflexivity|].
    cbn [Ticker.counters Ticker.elapsed]. rewrite counter_value_tick.
    replace ((1 + 4 * k + 3) / 4)%nat with (S k)
      by (apply (Nat.div_unique _ 4 (S k) 0); lia).
    cbn [tick_state Ticker.counters metricName variableLabels].
    unfold Second. repeat split; lia.
Qed.

End Loop.

Lemma total_latency_const (c : N) (k : nat) :
  total_latency (fun _ => c) k = Z.of_nat k * Z.of_N c.
Proof. induction k as [|k IH]; cbn [total_latency]; lia. Qed.

(** C7, as the loop does it: every firing of the timer, which is always
    armed with exactly one second, is followed by exactly one increment of
    the counter [countPerSec] with the labels [id="1"], [database="db1"],
    and the loop never stops.  The timer is re-armed only after the
    increment.  So, whatever time the rounds take, after [k] rounds the
    goroutine waits again on the timer armed with one second, the counter
    is [k] and no other counter of the vector exists, and the time elapsed
    is [k] seconds plus the time the rounds spent between a firing and the
    call of [Reset], hence at least [k] seconds.  After any number [m] of
    steps the goroutine is in a state, the counter is [m / 4], and at least
    that many seconds have elapsed.  When the rounds take no time at all,
    the time elapsed after [k] rounds is exactly [k] seconds. *)
Theorem C7_counter_increments_once_per_tick :
  forall latency : nat -> N,
    (forall k : nat,
       exists s,
         Ticker.after_ticks latency k = Ticker.Next s
         /\ Ticker.pc s = Ticker.AtReceive
         /\ Ticker.timer s = Ticker.Armed 1000000000
         /\ metricName (Ticker.counters s) = "countPerSec"
         /\ variableLabels (Ticker.counters s) = ["id"; "database"]
         /\ counter_value ["1"; "db1"] (Ticker.counters s) = N.of_nat k
         /\ dom (children (Ticker.counters s)) ⊆ {[ ["1"; "db1"] ]}
         /\ Ticker.elapsed s
            = Z.of_nat k * 1000000000 + total_latency latency k
         /\ Z.of_nat k * 1000000000 <= Ticker.elapsed s)
    /\ (forall m : nat,
          exists s,
            Ticker.run latency m Ticker.init = Ticker.Next s
            /\ metricName (Ticker.counters s) = "countPerSec"
            /\ variableLabels (Ticker.counters s) = ["id"; "database"]
            /\ counter_value ["1"; "db1"] (Ticker.counters s)
               = N.of_nat (m / 4)
            /\ Z.of_nat (m / 4) * 1000000000 <= Ticker.elapsed s)
    /\ (forall k : nat,
          exists s,
            Ticker.after_ticks (fun _ => 0%N) k = Ticker.Next s
            /\ counter_value ["1"; "db1"] (Ticker.counters s) = N.of_nat k
            /\ Ticker.elapsed s = Z.of_nat k * 1000000000).
Proof.
  intros latency. split; [|split].
  - intros k. exists (tick_state latency k).
    split; [apply after_ticks_state|].
    split; [reflexivity|]. split; [reflexivity|]. split; [reflexivity|].
    split; [reflexivity|]. split; [apply counter_value_tick|].
    split.
    + cbn [tick_state Ticker.counters children].
      destruct k as [|k]; cbn [tick_children].
      * rewrite dom_empty_L. set_solver.
      * rewrite dom_singleton_L. set_solver.
    + pose proof (total_latency_nonneg latency k).
      cbn [tick_state Ticker.elapsed]. unfold Second. split; lia.
  - intros m. apply run_state.
  - intros k. exists (tick_state (fun _ => 0%N) k).
    split; [apply after_ticks_state|].
    split; [apply counter_value_tick|].
    cbn [tick_state Ticker.elapsed]. rewrite total_latency_const.
    unfold Second. lia.
Qed.

(** The counter does not follow the elapsed seconds.  When each round takes
    one millisecond between the firing of the timer and the call of
    [Reset], the timer fires every 1.001 seconds: after 1000 rounds 1001
    seconds have elapsed and the counter is 1000. *)
Lemma C7_counter_lags_elapsed_seconds :
  (exists s,
     Ticker.after_ticks (fun _ => 1000000%N) 1000 = Ticker.Next s
     /\ Ticker.elapsed s = 1001 * 1000000000
     /\ counter_value ["1"; "db1"] (Ticker.counters s) = 1000%N)
  /\ ~ (forall (latency : nat -> N) (k : nat) (s : Ticker.State),
          Ticker.after_ticks latency k = Ticker.Next s ->
          Z.of_N (counter_value ["1"; "db1"] (Ticker.counters s))
          = Ticker.elapsed s / 1000000000).
Proof.
  assert (Helapsed :
    Ticker.elapsed (tick_state (fun _ => 1000000%N) 1000)
    = 1001 * 1000000000).
  { cbn [tick_state Ticker.elapsed]. rewrite total_latency_const.
    vm_compute. reflexivity. }
  split.
  - exists (tick_state (fun _ => 1000000%N) 1000).
    split; [apply after_ticks_state|]. split; [exact Helapsed|].
    rewrite counter_value_tick. reflexivity.
  - intros H.
    specialize (H (fun _ => 1000000%N) 1000%nat _
                  (after_ticks_state (fun _ => 1000000%N) 1000)).
    rewrite counter_value_tick, Helapsed in H.
    vm_compute in H. discriminate H.
Qed.

(** ** Which values of [n] the handler accepts *)

(** The digit switch of the parsing loop against [is_digit], checked on
    each of the 256 bytes: a digit yields its value, any other byte either
    has no value or one that base ten refuses. *)
Lemma digit_of_is_digit (c : ascii) :
  match strconv.digit_of (strconv.byte_of c) with
  | Some d => if is_digit c then d =? strconv.byte_of c - 48 else 10 <=? d
  | None => negb (is_digit c)
  end = true.
Proof.
  destruct c as [[] [] [] [] [] [] [] []]; vm_compute; reflexivity.
Qed.

Lemma is_digit_bounds (c : ascii) :
  is_digit c = true -> 48 <= strconv.byte_of c <= 57.
Proof. unfold is_digit. lia. Qed.

(** One round of the loop of [ParseUint]. *)
Lemma parseUint_loop_step (c : ascii) (rest : string) (n : Z) :
  0 <= n <= U64.maxUint64 ->
  strconv.parseUint_loop (String c rest) n =
  if is_digit c then
    if n * 10 + (strconv.byte_of c - 48) <=? U64.maxUint64
    then strconv.parseUint_loop rest (n * 10 + (strconv.byte_of c - 48))
    else (U64.maxUint64, Some strconv.ErrRange)
  else (0, Some strconv.ErrSyntax).
Proof.
  intros Hn. cbn [strconv.parseUint_loop].
  pose proof (digit_of_is_digit c) as Hd.
  destruct (strconv.digit_of (strconv.byte_of c)) as [d|].
  - destruct (is_digit c) eqn:Hc.
    + apply is_digit_bounds in Hc.
      assert (d = strconv.byte_of c - 48) as -> by lia.
      set (x := strconv.byte_of c - 48) in *.
      unfold strconv.base, strconv.cutoff, strconv.maxVal, U64.mul, U64.add,
        U64.wrap, U64.maxUint64, U64.modulus in *.
      change (2 ^ 64) with 18446744073709551616 in *.
      change ((18446744073709551616 - 1) / 10 + 1) with 1844674407370955162.
      destruct (Z.leb_spec 10 x); [lia|].
      destruct (Z.leb_spec 1844674407370955162 n).
      * destruct (Z.leb_spec (n * 10 + x) (18446744073709551616 - 1));
          [lia|reflexivity].
      * rewrite (Z.mod_small (n * 10)) by lia.
        destruct (Z.leb_spec (n * 10 + x) (18446744073709551616 - 1)).
        -- rewrite (Z.mod_small (n * 10 + x)) by lia.
           destruct (Z.ltb_spec (n * 10 + x) (n * 10)); [lia|].
           destruct (Z.ltb_spec (18446744073709551616 - 1) (n * 10 + x));
             [lia|reflexivity].
        -- assert (Hw : (n * 10 + x) mod 18446744073709551616
                        = n * 10 + x - 18446744073709551616).
           { symmetry. apply (Z.mod_unique _ _ 1); lia. }
           rewrite Hw.
           destruct (Z.ltb_spec (n * 10 + x - 18446744073709551616) (n * 10));
             [reflexivity|lia].
    + unfold strconv.base. destruct (Z.leb_spec 10 d); [reflexivity|lia].
  - destruct (is_digit c); [discriminate|reflexivity].
Qed.

Lemma decimal_value_ge (s : string) :
  forall acc, 0 <= acc -> all_digits s = true -> acc <= decimal_value s acc.
Proof.
  induction s as [|c rest IH]; intros acc Hacc Hs; cbn in *; [lia|].
  apply andb_true_iff in Hs as [Hc Hrest]. apply is_digit_bounds in Hc.
  specialize (IH (acc * 10 + (strconv.byte_of c - 48)) ltac:(lia) Hrest). lia.
Qed.

(** The three outcomes of the loop of [ParseUint]: a value exactly when
    every byte is a digit and the number read fits [uint64]. *)
Lemma parseUint_loop_spec (s : string) :
  forall n, 0 <= n <= U64.maxUint64 ->
    match strconv.parseUint_loop s n with
    | (v, None) =>
        all_digits s = true /\ v = decimal_value s n /\ 0 <= v <= U64.maxUint64
    | (v, Some strconv.ErrRange) =>
        v = U64.maxUint64
        /\ (all_digits s = true -> U64.maxUint64 < decimal_value s n)
    | (_, Some strconv.ErrSyntax) => all_digits s = false
    end.
Proof.
  induction s as [|c rest IH]; intros n Hn.
  - cbn. repeat split; lia.
  - rewrite (parseUint_loop_step c rest n Hn). cbn [all_digits decimal_value].
    destruct (is_digit c) eqn:Hc; [|reflexivity].
    pose proof (is_digit_bounds c Hc) as Hb.
    destruct (Z.leb_spec (n * 10 + (strconv.byte_of c - 48)) U64.maxUint64)
      as [Hle|Hgt].
    + cbn [andb]. apply IH. lia.
    + cbn [andb]. split; [reflexivity|]. intros Hrest.
      pose proof (decimal_value_ge rest
                    (n * 10 + (strconv.byte_of c - 48)) ltac:(lia) Hrest).
      lia.
Qed.

Lemma ParseUint_nonempty (c : ascii) (rest : string) :
  strconv.ParseUint (String c rest) = strconv.parseUint_loop (String c rest) 0.
Proof. reflexivity. Qed.

Lemma to_int64_small (u : Z) : 0 <= u < 2 ^ 63 -> U64.to_int64 u = u.
Proof.
  intros Hu. unfold U64.to_int64, U64.modulus.
  rewrite Z.mod_small; lia.
Qed.

Lemma neg_int64_small (u : Z) :
  0 <= u <= 2 ^ 63 -> U64.neg_int64 (U64.to_int64 u) = - u.
Proof.
  intros Hu. unfold U64.neg_int64, U64.to_int64, U64.modulus.
  change (2 ^ 64) with 18446744073709551616.
  change (2 ^ 63) with 9223372036854775808 in *.
  Z.div_mod_to_equations. lia.
Qed.

(** The sign-and-range part of [ParseInt], given the result of
    [ParseUint] on the body. *)
Lemma ParseInt_of_body (neg : bool) (body : string) :
  body <> "" ->
  match
    (let '(un, err) := strconv.ParseUint body in
     match err with
     | Some strconv.ErrSyntax => (0, Some strconv.ErrSyntax)
     | _ =>
         if negb neg && (2 ^ 63 <=? un) then (2 ^ 63 - 1, Some strconv.ErrRange)
         else if neg && (2 ^ 63 <? un) then (- 2 ^ 63, Some strconv.ErrRange)
         else (if neg then U64.neg_int64 (U64.to_int64 un)
               else U64.to_int64 un, None)
     end)
  with
  | (v, None) =>
      all_digits body = true
      /\ v = (if neg then - decimal_value body 0 else decimal_value body 0)
      /\ - 2 ^ 63 <= v < 2 ^ 63
  | (_, Some _) =>
      all_digits body = false
      \/ ~ (- 2 ^ 63 <= (if neg then - decimal_value body 0
                         else decimal_value body 0) < 2 ^ 63)
  end.
Proof.
  intros Hne. destruct body as [|c rest]; [congruence|].
  rewrite ParseUint_nonempty.
  pose proof (parseUint_loop_spec (String c rest) 0
                ltac:(unfold U64.maxUint64, U64.modulus; lia)) as Hspec.
  destruct (strconv.parseUint_loop (String c rest) 0) as [un [[]|]].
  - left. exact Hspec.
  - destruct Hspec as [-> Hbig].
    unfold U64.maxUint64, U64.modulus in *.
    destruct neg; cbn [negb andb].
    + destruct (Z.ltb_spec (2 ^ 63) (2 ^ 64 - 1)); [|lia].
      destruct (all_digits (String c rest)); [right|left; reflexivity].
      specialize (Hbig eq_refl). lia.
    + destruct (Z.leb_spec (2 ^ 63) (2 ^ 64 - 1)); [|lia].
      destruct (all_digits (String c rest)); [right|left; reflexivity].
      specialize (Hbig eq_refl). lia.
  - destruct Hspec as (Hall & -> & Hrange).
    set (val := decimal_value (String c rest) 0) in *.
    unfold U64.maxUint64, U64.modulus in Hrange.
    destruct neg; cbn [negb andb].
    + destruct (Z.ltb_spec (2 ^ 63) val).
      * right. lia.
      * rewrite neg_int64_small by lia. repeat split; [exact Hall|lia|lia].
    + destruct (Z.leb_spec (2 ^ 63) val).
      * right. lia.
      * rewrite to_int64_small by lia. repeat split; [exact Hall|lia|lia].
Qed.

Lemma numeral_of_body (neg : bool) (body : string) :
  body <> "" ->
  match body with
  | EmptyString => None
  | _ =>
      if all_digits body then
        let v := if neg then - decimal_value body 0 else decimal_value body 0 in
        if (- 2 ^ 63 <=? v) && (v <? 2 ^ 63) then Some v else None
      else None
  end
  =
  match
    (let '(un, err) := strconv.ParseUint body in
     match err with
     | Some strconv.ErrSyntax => (0, Some strconv.ErrSyntax)
     | _ =>
         if negb neg && (2 ^ 63 <=? un) then (2 ^ 63 - 1, Some strconv.ErrRange)
         else if neg && (2 ^ 63 <? un) then (- 2 ^ 63, Some strconv.ErrRange)
         else (if neg then U64.neg_int64 (U64.to_int64 un)
               else U64.to_int64 un, None)
     end)
  with
  | (v, None) => Some v
  | (_, Some _) => None
  end.
Proof.
  intros Hne. pose proof (ParseInt_of_body neg body Hne) as H. revert H.
  match goal with
  | |- match ?e with _ => _ end -> _ => destruct e as [v [e0|]]
  end; intros H; (destruct body as [|c rest]; [congruence|]).
  - destruct H as [H|H]; [rewrite H; reflexivity|].
    destruct (all_digits (String c rest)); [|reflexivity]. cbv zeta.
    set (val := if neg then _ else _) in *.
    destruct (Z.leb_spec (- 2 ^ 63) val), (Z.ltb_spec val (2 ^ 63));
      reflexivity || lia.
  - destruct H as (Hall & Hv & Hrange). rewrite Hall. cbv zeta. rewrite <- Hv.
    destruct (Z.leb_spec (- 2 ^ 63) v), (Z.ltb_spec v (2 ^ 63));
      reflexivity || lia.
Qed.

(** [strconv.ParseInt(s, 10, 64)] returns no error exactly on the decimal
    numerals whose value fits [int64], and then returns that value. *)
Lemma ParseInt_numeral (s : string) :
  int64_numeral s =
  match strconv.ParseInt s with
  | (v, None) => Some v
  | (_, Some _) => None
  end.
Proof.
  destruct s as [|c0 rest]; [reflexivity|].
  unfold int64_numeral, split_sign, strconv.ParseInt.
  destruct (Ascii.eqb c0 "+") eqn:Hplus; [|destruct (Ascii.eqb c0 "-") eqn:Hminus].
  - destruct rest as [|c1 rest]; [reflexivity|].
    assert (Hne : String c1 rest <> "") by discriminate.
    apply Ascii.eqb_eq in Hplus. subst c0.
    exact (numeral_of_body false (String c1 rest) Hne).
  - destruct rest as [|c1 rest]; [reflexivity|].
    assert (Hne : String c1 rest <> "") by discriminate.
    exact (numeral_of_body true (String c1 rest) Hne).
  - assert (Hne : String c0 rest <> "") by discriminate.
    exact (numeral_of_body false (String c0 rest) Hne).
Qed.

(** ** The trace of a call of [fibonacci] *)

(** Everything a call leaves in the world.  The spans it ends are listed in
    the order of the calls; span number [i] of them carries the [i]-th
    identifier and the [i]-th clock reading counted from the call, is named
    after the argument of its own call, and, unless it is the span of the
    call itself, has one of the earlier ones as parent. *)
Lemma fibonacci_trace (fuel : nat) :
  forall (ctx : context) (n : Z) (w : World),
    U64.in_range n -> n <= Z.of_nat fuel + 1 ->
    exists w' new,
      fibonacci fuel ctx n w = Some (U64.wrap (Fib (Z.to_nat n)), w')
      /\ wall w' = wall w
      /\ reads w' = (reads w + calls (Z.to_nat n))%nat
      /\ nextSpanID w' = (nextSpanID w + N.of_nat (calls (Z.to_nat n)))%N
      /\ ended w' = (ended w ++ new)%list
      /\ length new = calls (Z.to_nat n)
      /\ forall (i : nat) (sp : Span),
           new !! i = Some sp ->
           spanID sp = (nextSpanID w + N.of_nat i)%N
           /\ attributes sp = [("timestamp", wall w (reads w + i)%nat)]
           /\ tracerName sp = "fibonacci" /\ events sp = []
           /\ (exists m, 0 <= m <= n /\ spanName sp = Sprintf_fibonacci m)
           /\ (i = 0%nat ->
               parentID sp = currentSpan ctx
               /\ spanName sp = Sprintf_fibonacci n)
           /\ ((0 < i)%nat ->
               exists j, (j < i)%nat
                         /\ parentID sp = Some (nextSpanID w + N.of_nat j)%N).
Proof.
  assert (Hroot : forall (ctx : context) (n : Z) (w : World) (sp : Span),
    0 <= n ->
    sp = {| spanID := nextSpanID w; parentID := currentSpan ctx;
            tracerName := "fibonacci"; spanName := Sprintf_fibonacci n;
            attributes := [("timestamp", wall w (reads w))]; events := [] |} ->
    spanID sp = (nextSpanID w + N.of_nat 0)%N
    /\ attributes sp = [("timestamp", wall w (reads w + 0)%nat)]
    /\ tracerName sp = "fibonacci" /\ events sp = []
    /\ (exists m, 0 <= m <= n /\ spanName sp = Sprintf_fibonacci m)
    /\ (0%nat = 0%nat ->
        parentID sp = currentSpan ctx /\ spanName sp = Sprintf_fibonacci n)
    /\ ((0 < 0)%nat ->
        exists j, (j < 0)%nat
                  /\ parentID sp = Some (nextSpanID w + N.of_nat j)%N)).
  { intros ctx n w sp Hn ->. cbn [spanID attributes tracerName events
                                  spanName parentID].
    rewrite Nat.add_0_r. split; [lia|]. split; [reflexivity|].
    split; [reflexivity|]. split; [reflexivity|].
    split; [exists n; split; [lia|reflexivity]|].
    split; [intros _; split; reflexivity|lia]. }
  assert (Hleaf : forall (ctx : context) (n : Z) (w : World),
    0 <= n <= 1 ->
    exists w' new,
      Some (n, {| wall := wall w; reads := S (reads w);
                  nextSpanID := N.succ (nextSpanID w);
                  ended := ended w ++
                    [ {| spanID := nextSpanID w; parentID := currentSpan ctx;
                         tracerName := "fibonacci";
                         spanName := Sprintf_fibonacci n;
                         attributes := [("timestamp", wall w (reads w))];
                         events := [] |} ] |})
      = Some (U64.wrap (Fib (Z.to_nat n)), w')
      /\ wall w' = wall w
      /\ reads w' = (reads w + calls (Z.to_nat n))%nat
      /\ nextSpanID w' = (nextSpanID w + N.of_nat (calls (Z.to_nat n)))%N
      /\ ended w' = (ended w ++ new)%list
      /\ length new = calls (Z.to_nat n)
      /\ forall (i : nat) (sp : Span),
           new !! i = Some sp ->
           spanID sp = (nextSpanID w + N.of_nat i)%N
           /\ attributes sp = [("timestamp", wall w (reads w + i)%nat)]
           /\ tracerName sp = "fibonacci" /\ events sp = []
           /\ (exists m, 0 <= m <= n /\ spanName sp = Sprintf_fibonacci m)
           /\ (i = 0%nat ->
               parentID sp = currentSpan ctx
               /\ spanName sp = Sprintf_fibonacci n)
           /\ ((0 < i)%nat ->
               exists j, (j < i)%nat
                         /\ parentID sp = Some (nextSpanID w + N.of_nat j)%N)).
  { intros ctx n w Hn.
    assert (Hc : calls (Z.to_nat n) = 1%nat)
      by (assert (n = 0 \/ n = 1) as [-> | ->] by lia; reflexivity).
    assert (Hv : U64.wrap (Fib (Z.to_nat n)) = n)
      by (assert (n = 0 \/ n = 1) as [-> | ->] by lia; reflexivity).
    rewrite Hc, Hv. eexists _, [_].
    split; [reflexivity|]. cbn [wall reads nextSpanID ended].
    split; [reflexivity|]. split; [lia|]. split; [lia|].
    split; [reflexivity|]. split; [reflexivity|].
    intros [|i] sp Hi; [|discriminate]. injection Hi as <-.
    apply (Hroot ctx n w); [lia|reflexivity]. }
  induction fuel as [|fuel IH]; intros ctx n w Hn Hfuel;
    rewrite fibonacci_unfold, fibonacci_span_eq.
  - assert (Hle : 0 <= n <= 1) by (unfold U64.in_range in Hn; lia).
    destruct (Z.leb_spec n 1); [|lia]. apply Hleaf, Hle.
  - destruct (Z.leb_spec n 1) as [Hle|Hgt];
      [apply Hleaf; unfold U64.in_range in Hn; lia|].
    rewrite (U64_sub_small n 1), (U64_sub_small n 2)
      by (assumption || unfold U64.in_range in Hn; lia).
    set (root := {| spanID := nextSpanID w; parentID := currentSpan ctx;
                    tracerName := "fibonacci";
                    spanName := Sprintf_fibonacci n;
                    attributes := [("timestamp", wall w (reads w))];
                    events := [] |}).
    set (ctx1 := {| currentSpan := Some (nextSpanID w) |}).
    set (w1 := {| wall := wall w; reads := S (reads w);
                  nextSpanID := N.succ (nextSpanID w);
                  ended := ended w ++ [root] |}).
    destruct (IH ctx1 (n - 1) w1)
      as (w2 & new1 & E1 & W1 & R1 & I1 & L1 & C1 & P1);
      [u64_range | lia |].
    destruct (IH ctx1 (n - 2) w2)
      as (w3 & new2 & E2 & W2 & R2 & I2 & L2 & C2 & P2);
      [u64_range | lia |].
    rewrite E1, E2.
    assert (Hk : Z.to_nat n = S (S (Z.to_nat (n - 2)))) by lia.
    assert (Hk1 : Z.to_nat (n - 1) = S (Z.to_nat (n - 2))) by lia.
    rewrite Hk1 in *.
    set (k := Z.to_nat (n - 2)) in *.
    rewrite Hk, Fib_step, calls_step, U64_add_wrap.
    clear E1 E2 IH. subst w1 ctx1.
    cbn [wall reads nextSpanID ended currentSpan] in W1, R1, I1, L1, P1, P2.
    exists w3, (root :: new1 ++ new2)%list.
    split; [reflexivity|]. split; [congruence|].
    split; [lia|]. split; [lia|].
    split; [rewrite L2, L1, <- !app_assoc; reflexivity|].
    split; [cbn [length]; rewrite length_app; lia|].
    intros [|i] sp Hi.
    + injection Hi as <-. apply (Hroot ctx n w); [lia|reflexivity].
    + cbn [lookup list_lookup] in Hi.
      apply lookup_app_Some in Hi as [Hi | [Hlen Hi]].
      * destruct (P1 i sp Hi) as (S1 & A1 & T1 & V1 & (m & Hm & N1) & Z1 & J1).
        split; [lia|]. split; [rewrite A1; do 3 f_equal; lia|].
        split; [exact T1|]. split; [exact V1|].
        split; [exists m; split; [lia|exact N1]|].
        split; [lia|]. intros _.
        destruct i as [|i].
        -- exists 0%nat. split; [lia|].
           destruct (Z1 eq_refl) as [-> _].
           f_equal. lia.
        -- destruct (J1 ltac:(lia)) as (j & Hj & ->).
           exists (S j). split; [lia|]. f_equal. lia.
      * destruct (P2 _ sp Hi) as (S2 & A2 & T2 & V2 & (m & Hm & N2) & Z2 & J2).
        rewrite C1 in Hlen, S2, A2, Z2, J2.
        rewrite W1, R1 in A2. rewrite I1 in S2, J2.
        split; [lia|]. split; [rewrite A2; do 3 f_equal; lia|].
        split; [exact T2|]. split; [exact V2|].
        split; [exists m; split; [lia|exact N2]|].
        split; [lia|]. intros _.
        destruct (i - calls (S k))%nat as [|i2] eqn:Hi2.
        -- exists 0%nat. split; [lia|].
           destruct (Z2 eq_refl) as [-> _].
           f_equal. lia.
        -- destruct (J2 ltac:(lia)) as (j & Hj & ->).
           exists (S (calls (S k) + j)). split; [lia|]. f_equal. lia.
Qed.

Lemma calls_pos (k : nat) : (0 < calls k)%nat.
Proof. destruct k as [|[|k]]; cbn [calls]; lia. Qed.

Lemma calls_closed_form (k : nat) :
  Z.of_nat (calls k) = 2 * Fib (S k) - 1
  /\ Z.of_nat (calls (S k)) = 2 * Fib (S (S k)) - 1.
Proof.
  induction k as [|k [IH0 IH1]]; [split; reflexivity|].
  split; [exact IH1|].
  rewrite calls_step, (Fib_step (S k)).
  rewrite !Nat2Z.inj_add, IH0, IH1. change (Z.of_nat 1) with 1. lia.
Qed.

(** A call that returned had the fuel its depth needs. *)
Lemma fibonacci_returned_fuel (fuel : nat) (ctx : context) (n : Z) (w : World)
    (r : Z) (w' : World) :
  U64.in_range n -> fibonacci fuel ctx n w = Some (r, w') ->
  n <= Z.of_nat fuel + 1.
Proof.
  intros Hn E. destruct (Z.le_gt_cases n (Z.of_nat fuel + 1)) as [H|H];
    [exact H|].
  rewrite (fibonacci_depth fuel ctx n w Hn H) in E. discriminate.
Qed.

(** The handler in terms of the numeral its parameter denotes. *)
Lemma ServeHTTP_numeral (fuel : nat) (req : Request) (w : World) :
  fibonacciHandler_ServeHTTP fuel newResponse req w =
  match int64_numeral (Values_Get (query req) "n") with
  | None =>
      Some ({| wroteHeader := Some StatusBadRequest;
               written := "n is not a number" |}, w)
  | Some v =>
      match fibonacci fuel (reqContext req) (U64.of_int64 v) w with
      | None => None
      | Some (ret, w1) =>
          Some ({| wroteHeader := Some StatusOK;
                   written := strconv.FormatUint ret |}, w1)
      end
  end.
Proof.
  rewrite ParseInt_numeral. unfold fibonacciHandler_ServeHTTP.
  destruct (strconv.ParseInt (Values_Get (query req) "n")) as [v [e|]];
    [reflexivity|].
  destruct (fibonacci fuel _ _ _) as [[ret w1]|]; reflexivity.
Qed.

(** X1: the handler answers with status 400 exactly when [n] is not a
    decimal numeral (optional sign, at least one digit, nothing else) whose
    value fits [int64]; on such a numeral it calls [fibonacci] on the value
    converted to [uint64] and answers 200 with the decimal text of the
    result. *)
Theorem X1_handler_accepts_int64_numerals :
  forall (fuel : nat) (req : Request) (w : World),
    fibonacciHandler_ServeHTTP fuel newResponse req w =
    match int64_numeral (Values_Get (query req) "n") with
    | None =>
        Some ({| wroteHeader := Some StatusBadRequest;
                 written := "n is not a number" |}, w)
    | Some v =>
        match fibonacci fuel (reqContext req) (U64.of_int64 v) w with
        | None => None
        | Some (ret, w1) =>
            Some ({| wroteHeader := Some StatusOK;
                     written := strconv.FormatUint ret |}, w1)
        end
    end.
Proof. exact ServeHTTP_numeral. Qed.

(** X2: a request without the parameter [n], or whose first [n] is empty,
    is answered with status 400 and the fixed body, and no span is
    started. *)
Theorem X2_handler_missing_n :
  forall (fuel : nat) (req : Request) (w : World),
    (query req !! "n" = None \/ query req !! "n" = Some []
     \/ exists vs, query req !! "n" = Some ("" :: vs)) ->
    fibonacciHandler_ServeHTTP fuel newResponse req w =
    Some ({| wroteHeader := Some StatusBadRequest;
             written := "n is not a number" |}, w).
Proof.
  intros fuel req w H.
  assert (Hget : Values_Get (query req) "n" = "").
  { unfold Values_Get. destruct H as [-> | [-> | [vs ->]]]; reflexivity. }
  unfold fibonacciHandler_ServeHTTP. rewrite Hget. reflexivity.
Qed.

Lemma X2_handler_missing_n_witness :
  fibonacciHandler_ServeHTTP 3 newResponse
    {| method := "GET"; reqContext := background; query := ∅ |}
    (World0 (fun _ => 0))
  = Some ({| wroteHeader := Some StatusBadRequest;
             written := "n is not a number" |}, World0 (fun _ => 0)).
Proof.
  apply X2_handler_missing_n. left. cbn [query]. apply lookup_empty.
Defined.

(** What [FormatUint] prints is a numeral: digits only, at least one, and
    its value is the number printed. *)
Lemma FormatUint_numeral (u : Z) :
  U64.in_range u ->
  exists c rest,
    strconv.FormatUint u = String c rest
    /\ all_digits (String c rest) = true
    /\ decimal_value (String c rest) 0 = u.
Proof.
  intros Hu. pose proof (ParseUint_FormatUint u Hu) as Hparse.
  destruct (strconv.FormatUint u) as [|c rest] eqn:E; [discriminate|].
  rewrite ParseUint_nonempty in Hparse.
  pose proof (parseUint_loop_spec (String c rest) 0
                ltac:(unfold U64.maxUint64, U64.modulus; lia)) as Hspec.
  rewrite Hparse in Hspec. destruct Hspec as (Hall & Hv & _).
  exists c, rest. repeat split; [exact Hall|symmetry; exact Hv].
Qed.

Lemma int64_numeral_FormatUint (v : Z) :
  0 <= v < 2 ^ 63 -> int64_numeral (strconv.FormatUint v) = Some v.
Proof.
  intros Hv.
  destruct (FormatUint_numeral v ltac:(u64_range)) as (c & rest & -> & Hall & Hval).
  unfold int64_numeral, split_sign.
  assert (Hc : is_digit c = true)
    by (cbn [all_digits] in Hall; apply andb_true_iff in Hall; tauto).
  destruct (Ascii.eqb_spec c "+") as [->|_]; [discriminate Hc|].
  destruct (Ascii.eqb_spec c "-") as [->|_]; [discriminate Hc|].
  rewrite Hall, Hval.
  destruct (Z.leb_spec (- 2 ^ 63) v), (Z.ltb_spec v (2 ^ 63));
    reflexivity || lia.
Qed.

(** X3: for every [v] from 0 to [2^63 - 1], a request whose [n] is the
    decimal text of [v] is answered, once the fuel covers [v] nested calls,
    with status 200 and the decimal text of the [v]-th Fibonacci number
    modulo [2^64]. *)
Theorem X3_handler_end_to_end :
  forall (v : Z) (req : Request) (w : World) (fuel : nat),
    0 <= v < 2 ^ 63 ->
    Values_Get (query req) "n" = strconv.FormatUint v ->
    (Z.to_nat v <= fuel)%nat ->
    exists resp w',
      fibonacciHandler_ServeHTTP fuel newResponse req w = Some (resp, w')
      /\ response_of resp
         = (200, strconv.FormatUint (Fib (Z.to_nat v) mod 2 ^ 64)).
Proof.
  intros v req w fuel Hv Hn Hfuel.
  rewrite ServeHTTP_numeral, Hn,
    (int64_numeral_FormatUint v Hv).
  assert (Hconv : U64.of_int64 v = v) by (apply U64_wrap_small; u64_range).
  rewrite Hconv.
  destruct (fibonacci_run fuel (reqContext req) v w) as (w' & E & _);
    [u64_range | lia |].
  rewrite E. eexists _, w'. split; reflexivity.
Qed.

Lemma X3_handler_end_to_end_witness :
  exists resp w',
    fibonacciHandler_ServeHTTP 12 newResponse (GET_n "12")
                               (World0 (fun _ => 0)) = Some (resp, w')
    /\ response_of resp
       = (200, strconv.FormatUint (Fib (Z.to_nat 12) mod 2 ^ 64)).
Proof.
  apply (X3_handler_end_to_end 12).
  - lia.
  - vm_compute. reflexivity.
  - vm_compute. lia.
Defined.

Example int64_numeral_rejects :
  map int64_numeral
      ["0x10"; "1e3"; " 5"; "5 "; "1_000"; "1.5"; "+"; "-"; "--1"; "ten";
       "9223372036854775808"; "-9223372036854775809"]
  = [None; None; None; None; None; None; None; None; None; None; None; None].
Proof. vm_compute. reflexivity. Qed.

Example int64_numeral_accepts :
  map int64_numeral
      ["0"; "007"; "+5"; "-0"; "-3"; "9223372036854775807";
       "-9223372036854775808"]
  = [Some 0; Some 7; Some 5; Some 0; Some (-3); Some 9223372036854775807;
     Some (-9223372036854775808)].
Proof. vm_compute. reflexivity. Qed.

(** X4: calls nest exactly [n - 1] deep.  For a [uint64] [n], the call
    returns if and only if at least [n - 1] nested calls are allowed. *)
Theorem X4_fibonacci_nesting_depth :
  forall (fuel : nat) (ctx : context) (n : Z) (w : World),
    U64.in_range n ->
    (fibonacci fuel ctx n w <> None <-> n <= Z.of_nat fuel + 1).
Proof.
  intros fuel ctx n w Hn. split.
  - intros Hret. destruct (Z.le_gt_cases n (Z.of_nat fuel + 1)) as [H|H];
      [exact H|].
    exfalso. apply Hret. apply fibonacci_depth; assumption.
  - intros Hfuel. destruct (fibonacci_run fuel ctx n w Hn Hfuel) as (w' & E & _).
    rewrite E. discriminate.
Qed.

Lemma X4_fibonacci_nesting_depth_witness :
  fibonacci 3 background 5 (World0 (fun _ => 0)) = None
  /\ fibonacci 4 background 5 (World0 (fun _ => 0)) <> None.
Proof.
  assert (H5 : U64.in_range 5) by u64_range.
  split.
  - destruct (fibonacci 3 background 5 (World0 (fun _ => 0))) eqn:E;
      [|reflexivity].
    assert (Hret : fibonacci 3 background 5 (World0 (fun _ => 0)) <> None)
      by (rewrite E; discriminate).
    apply (X4_fibonacci_nesting_depth 3 background 5 _ H5) in Hret. lia.
  - apply (X4_fibonacci_nesting_depth 4 background 5 _ H5). lia.
Defined.

(** X5: a call on a [uint64] [n] ends exactly [2 * Fib (n + 1) - 1] spans
    and reads the clock as many times; the spans that were ended before the
    call are all kept, in place, and the clock itself is not changed. *)
Theorem X5_fibonacci_span_count :
  forall (fuel : nat) (ctx : context) (n : Z) (w : World),
    U64.in_range n -> n <= Z.of_nat fuel + 1 ->
    exists r w' new,
      fibonacci fuel ctx n w = Some (r, w')
      /\ ended w' = (ended w ++ new)%list
      /\ Z.of_nat (length new) = 2 * Fib (S (Z.to_nat n)) - 1
      /\ Z.of_nat (reads w') = Z.of_nat (reads w) + 2 * Fib (S (Z.to_nat n)) - 1
      /\ wall w' = wall w.
Proof.
  intros fuel ctx n w Hn Hfuel.
  destruct (fibonacci_trace fuel ctx n w Hn Hfuel)
    as (w' & new & E & W & R & _ & L & C & _).
  pose proof (proj1 (calls_closed_form (Z.to_nat n))) as Hc.
  exists (U64.wrap (Fib (Z.to_nat n))), w', new.
  split; [exact E|]. split; [exact L|]. split; [lia|].
  split; [lia|exact W].
Qed.

Lemma X5_fibonacci_span_count_witness :
  exists r w' new,
    fibonacci 9 background 10 (World0 (fun _ => 0)) = Some (r, w')
    /\ ended w' = new
    /\ Z.of_nat (length new) = 177.
Proof.
  destruct (X5_fibonacci_span_count 9 background 10 (World0 (fun _ => 0)))
    as (r & w' & new & E & L & C & _); [u64_range | lia |].
  exists r, w', new. split; [exact E|]. split; [exact L|].
  rewrite C. reflexivity.
Defined.

(** X6: the spans a call ends are stamped and named in the order of the
    calls.  Span number [i] among them carries the single attribute
    [timestamp], whose value is the [i]-th clock reading made since the
    call started; it comes from the tracer [fibonacci], has no event, and
    is named [fibonacci-m] for an [m] between 0 and [n]. *)
Theorem X6_fibonacci_spans_in_call_order :
  forall (fuel : nat) (ctx : context) (n : Z) (w : World),
    U64.in_range n -> n <= Z.of_nat fuel + 1 ->
    exists r w' new,
      fibonacci fuel ctx n w = Some (r, w')
      /\ ended w' = (ended w ++ new)%list
      /\ forall (i : nat) (sp : Span),
           new !! i = Some sp ->
           attributes sp = [("timestamp", wall w (reads w + i)%nat)]
           /\ tracerName sp = "fibonacci" /\ events sp = []
           /\ exists m, 0 <= m <= n /\ spanName sp = Sprintf_fibonacci m.
Proof.
  intros fuel ctx n w Hn Hfuel.
  destruct (fibonacci_trace fuel ctx n w Hn Hfuel)
    as (w' & new & E & _ & _ & _ & L & _ & P).
  exists (U64.wrap (Fib (Z.to_nat n))), w', new.
  split; [exact E|]. split; [exact L|].
  intros i sp Hi. destruct (P i sp Hi) as (_ & A & T & V & M & _).
  split; [exact A|]. split; [exact T|]. split; [exact V|exact M].
Qed.

Lemma X6_fibonacci_spans_in_call_order_witness :
  exists r w',
    fibonacci 2 background 3 (World0 Z.of_nat) = Some (r, w')
    /\ map spanName (ended w')
       = ["fibonacci-3"; "fibonacci-2"; "fibonacci-1"; "fibonacci-0";
          "fibonacci-1"]
    /\ map attributes (ended w')
       = [[("timestamp", 0)]; [("timestamp", 1)]; [("timestamp", 2)];
          [("timestamp", 3)]; [("timestamp", 4)]].
Proof.
  destruct (X6_fibonacci_spans_in_call_order 2 background 3 (World0 Z.of_nat))
    as (r & w' & new & E & L & _); [u64_range | lia |].
  exists r, w'. split; [exact E|].
  assert (E' : fibonacci 2 background 3 (World0 Z.of_nat) = Some (r, w'))
    by exact E.
  vm_compute in E'. injection E' as _ <-. split; reflexivity.
Defined.

(** X7: the spans of one call form a tree under the span of the call.  The
    first span a call ends is its own and has the current span of the
    caller's context as parent; every later one has as parent a span the
    same call ended before it. *)
Theorem X7_fibonacci_span_tree :
  forall (fuel : nat) (ctx : context) (n : Z) (w : World),
    U64.in_range n -> n <= Z.of_nat fuel + 1 ->
    exists r w' root rest,
      fibonacci fuel ctx n w = Some (r, w')
      /\ ended w' = (ended w ++ root :: rest)%list
      /\ parentID root = currentSpan ctx
      /\ spanName root = Sprintf_fibonacci n
      /\ forall (i : nat) (sp : Span),
           rest !! i = Some sp ->
           exists (j : nat) (parent : Span),
             (j <= i)%nat
             /\ (root :: rest) !! j = Some parent
             /\ parentID sp = Some (spanID parent).
Proof.
  intros fuel ctx n w Hn Hfuel.
  destruct (fibonacci_trace fuel ctx n w Hn Hfuel)
    as (w' & new & E & _ & _ & _ & L & C & P).
  destruct new as [|root rest];
    [pose proof (calls_pos (Z.to_nat n)); cbn [length] in C; lia|].
  exists (U64.wrap (Fib (Z.to_nat n))), w', root, rest.
  split; [exact E|]. split; [exact L|].
  destruct (P 0%nat root eq_refl) as (_ & _ & _ & _ & _ & H0 & _).
  destruct (H0 eq_refl) as [Hparent Hname].
  split; [exact Hparent|]. split; [exact Hname|].
  intros i sp Hi.
  destruct (P (S i) sp Hi) as (_ & _ & _ & _ & _ & _ & HS).
  destruct (HS ltac:(lia)) as (j & Hj & Hp).
  assert (Hlen : (i < length rest)%nat) by (apply lookup_lt_Some in Hi; exact Hi).
  destruct ((root :: rest) !! j) as [parent|] eqn:Hparentj.
  - exists j, parent. split; [lia|]. split; [exact Hparentj|].
    destruct (P j parent Hparentj) as (Hid & _). rewrite Hp, Hid. reflexivity.
  - apply lookup_ge_None in Hparentj. cbn [length] in Hparentj. lia.
Qed.

Lemma X7_fibonacci_span_tree_witness :
  exists r w' root rest,
    fibonacci 2 background 3 (World0 (fun _ => 0)) = Some (r, w')
    /\ ended w' = root :: rest
    /\ parentID root = None
    /\ length rest = 4%nat.
Proof.
  destruct (X7_fibonacci_span_tree 2 background 3 (World0 (fun _ => 0)))
    as (r & w' & root & rest & E & L & Hp & _); [u64_range | lia |].
  exists r, w', root, rest. split; [exact E|]. split; [exact L|].
  split; [exact Hp|].
  assert (E' : fibonacci 2 background 3 (World0 (fun _ => 0)) = Some (r, w'))
    by exact E.
  vm_compute in E'. injection E' as _ <-.
  cbn [ended World0 app] in L. injection L as _ <-. reflexivity.
Defined.

(** X8: above the base case the trace of a call splits along its two
    recursive calls.  For [n > 1] the call ends its own span first, then
    all [calls (n-1)] spans of the call on [n - 1], then all [calls (n-2)]
    spans of the call on [n - 2]; the first span of each group is named
    after that argument and is a child of the call's own span, which has
    already been ended by then. *)
Theorem X8_fibonacci_subtrees :
  forall (fuel : nat) (ctx : context) (n : Z) (w : World),
    U64.in_range n -> 1 < n -> n <= Z.of_nat fuel + 1 ->
    exists r w' root c1 left c2 right,
      fibonacci fuel ctx n w = Some (r, w')
      /\ ended w' = (ended w ++ root :: (c1 :: left) ++ (c2 :: right))%list
      /\ spanName root = Sprintf_fibonacci n
      /\ length (c1 :: left) = calls (Z.to_nat (n - 1))
      /\ length (c2 :: right) = calls (Z.to_nat (n - 2))
      /\ spanName c1 = Sprintf_fibonacci (n - 1)
      /\ spanName c2 = Sprintf_fibonacci (n - 2)
      /\ parentID c1 = Some (spanID root)
      /\ parentID c2 = Some (spanID root).
Proof.
  intros fuel ctx n w Hn Hgt Hfuel.
  destruct fuel as [|fuel]; [lia|].
  rewrite fibonacci_unfold, fibonacci_span_eq.
  destruct (Z.leb_spec n 1); [lia|].
  rewrite (U64_sub_small n 1), (U64_sub_small n 2)
    by (assumption || unfold U64.in_range in Hn; lia).
  match goal with
  | |- context [fibonacci fuel ?c (n - 1) ?w1] =>
      destruct (fibonacci_trace fuel c (n - 1) w1)
        as (w2 & new1 & E1 & _ & _ & _ & L1 & C1 & P1);
        [u64_range | lia |];
      destruct (fibonacci_trace fuel c (n - 2) w2)
        as (w3 & new2 & E2 & _ & _ & _ & L2 & C2 & P2);
        [u64_range | lia |]
  end.
  rewrite E1, E2.
  destruct new1 as [|c1 left];
    [pose proof (calls_pos (Z.to_nat (n - 1))); cbn [length] in C1; lia|].
  destruct new2 as [|c2 right];
    [pose proof (calls_pos (Z.to_nat (n - 2))); cbn [length] in C2; lia|].
  destruct (P1 0%nat c1 eq_refl) as (_ & _ & _ & _ & _ & H1 & _).
  destruct (P2 0%nat c2 eq_refl) as (_ & _ & _ & _ & _ & H2 & _).
  destruct (H1 eq_refl) as [Hp1 Hn1]. destruct (H2 eq_refl) as [Hp2 Hn2].
  cbn [currentSpan ended] in Hp1, Hp2, L1.
  eexists _, w3, _, c1, left, c2, right.
  split; [reflexivity|].
  split; [rewrite L2, L1, <- !app_assoc; reflexivity|].
  split; [reflexivity|]. split; [exact C1|]. split; [exact C2|].
  split; [exact Hn1|]. split; [exact Hn2|].
  split; [exact Hp1|exact Hp2].
Qed.

Lemma X8_fibonacci_subtrees_witness :
  exists r w' root c1 left c2 right,
    fibonacci 3 background 4 (World0 (fun _ => 0)) = Some (r, w')
    /\ ended w' = root :: (c1 :: left) ++ (c2 :: right)
    /\ length (c1 :: left) = 5%nat /\ length (c2 :: right) = 3%nat
    /\ spanName c1 = "fibonacci-3" /\ spanName c2 = "fibonacci-2".
Proof.
  destruct (X8_fibonacci_subtrees 3 background 4 (World0 (fun _ => 0)))
    as (r & w' & root & c1 & left & c2 & right
        & E & L & _ & C1 & C2 & N1 & N2 & _);
    [u64_range | lia | lia |].
  exists r, w', root, c1, left, c2, right.
  split; [exact E|]. split; [exact L|].
  split; [exact C1|]. split; [exact C2|]. split; [exact N1|exact N2].
Defined.
